(** * MIDIListener: the capture-and-segmentation core of the MIDI recorder

    A shallow embedding of [src/MIDIListener.py] (class [MidiRecorder]):
    the event buffer, the file writer [save_buffer_to_file], device
    discovery ([find_midi_input], [open_midi_input],
    [is_port_still_available]) and the polling loop of
    [run_with_reconnect], followed by the properties of the specification
    that concern them.

    Conventions.  Mutable attributes of the recorder are fields of the
    record [MidiRecorder] and every method takes the recorder and returns
    the updated one.  What a method does to the outside world (calling the
    serializer, closing the port, scheduling the log window) is returned
    as a list of [effect]s, oldest first.  What the outside world supplies
    (device enumerations, pending messages, clock readings) is an explicit
    argument. *)

From Stdlib Require Import ZArith List String Bool Lia QArith.
Import ListNotations.
Local Open Scope Z_scope.

(** ** Messages of the transport library *)

(** The message types of the transport library (mido). *)
Inductive msg_type : Type :=
  | note_off | note_on | polytouch | control_change | program_change
  | aftertouch | pitchwheel | sysex | quarter_frame | songpos
  | song_select | tune_request
  | clock | start | continue | stop | active_sensing | reset.

Definition msg_type_eqb (a b : msg_type) : bool :=
  match a, b with
  | note_off, note_off | note_on, note_on | polytouch, polytouch
  | control_change, control_change | program_change, program_change
  | aftertouch, aftertouch | pitchwheel, pitchwheel | sysex, sysex
  | quarter_frame, quarter_frame | songpos, songpos
  | song_select, song_select | tune_request, tune_request
  | clock, clock | start, start | continue, continue | stop, stop
  | active_sensing, active_sensing | reset, reset => true
  | _, _ => false
  end.

(** A message as the recorder sees it: its [type], the [note] and
    [velocity] attributes the loop reads (only after it has checked that
    the type is [note_on]) and the [time] attribute that [msg.copy(time=..)]
    sets. *)
Record Message : Type := mkMessage {
  type : msg_type;
  note : Z;
  velocity : Z;
  time : Z
}.

(** Modelled from the spec: the transport library is not part of the
    repository; [is_realtime] is the flag of a message that marks the
    clock and active-sensing messages, taken here as the system real-time
    messages of the MIDI standard.  The properties below use one fact
    about it: a [note_on] message is not realtime. *)
Definition is_realtime (msg : Message) : bool :=
  match type msg with
  | clock | start | continue | stop | active_sensing | reset => true
  | _ => false
  end.

(** [msg.copy(time=t)]: a new message equal to [msg] but for its time. *)
Definition copy (msg : Message) (t : Z) : Message :=
  {| type := type msg; note := note msg; velocity := velocity msg; time := t |}.

(** ** Time and the serializer's arithmetic *)

(** Absolute timestamps are the floats returned by [time.time()].  The
    recorder only subtracts them, compares a difference with the idle
    timeout, hands a difference to [mido.second2tick] and truncates the
    result with [int(..)].  These operations are kept abstract. *)
Class TimeOps (T : Type) : Type := {
  (** the literal [0] used as [first_time] of an empty buffer *)
  t_zero : T;
  (** [a - b] *)
  t_sub : T -> T -> T;
  (** [d > n] for an integer constant [n] *)
  t_gt : T -> Z -> bool;
  (** [mido.second2tick(second, ticks_per_beat, tempo)] *)
  second2tick : T -> Z -> Z -> T;
  (** [int(x)] *)
  to_int : T -> Z;
  (** [mid.ticks_per_beat] of a fresh [mido.MidiFile()] *)
  ticks_per_beat : Z
}.

(** ** Constants of the module *)

Definition MIN_NOTES : Z := 10.
Definition NO_INPUT_TIMEOUT : Z := 5 * 60.
Definition RECONNECT_INTERVAL : Z := 2.

(** ** Log lines, effects *)

(** The lines [self.log] receives.  The file name of a saved capture
    (derived from the local time) is left out of [LSaved]. *)
Inductive log_line : Type :=
  | LWaitingForDevice
  | LDeviceFound (port_name : string)
  | LConnecting (port_name : string)
  | LFailedToOpen (port_name : string)
  | LDiscardingOnly (n : Z)
  | LDiscardingNoNotes
  | LSaved (n : Z)
  | LConnected
  | LDisconnected
  | LNote36Pressed
  | LGot (msg : Message)
  | LTimeoutReached
  | LErrorDuringProcessing
  | LConnectionError
  | LWaitingBeforeReconnect.

(** Calls that leave the recorder. *)
Inductive effect : Type :=
  (** [mid.save(filename)] on a file whose single track is [track] *)
  | MidSave (track : list Message)
  (** [self.root.after(0, self.show_log_window)] *)
  | AfterShowLogWindow
  (** [port.close()] *)
  | PortClose
  (** [time.sleep(RECONNECT_INTERVAL)] *)
  | SleepReconnect.

Definition is_AfterShowLogWindow (e : effect) : bool :=
  match e with AfterShowLogWindow => true | _ => false end.

(** Python truthiness of a value that is [None] or a string. *)
Definition truthy (name : option string) : bool :=
  match name with
  | None => false
  | Some s => negb (String.eqb s EmptyString)
  end.

(** [name in names] *)
Definition name_in (name : string) (names : list string) : bool :=
  existsb (String.eqb name) names.

Section Recorder.

Context {T : Type} `{TimeOps T}.

(** The module constant [MIDI_PORT_NAME] (the source sets it to [None]). *)
Variable MIDI_PORT_NAME : option string.

(** ** The recorder *)

Record MidiRecorder : Type := mkRecorder {
  buffer : list (Message * T);
  last_input_time : T;
  note_on_count : Z;
  log_output : list log_line;
  gui_open : bool;
  connected_port_name : option string
}.

Definition log (self : MidiRecorder) (text : log_line) : MidiRecorder :=
  {| buffer := buffer self;
     last_input_time := last_input_time self;
     note_on_count := note_on_count self;
     log_output := log_output self ++ [text];
     gui_open := gui_open self;
     connected_port_name := connected_port_name self |}.

(** [self.buffer.clear(); self.note_on_count = 0] *)
Definition clear (self : MidiRecorder) : MidiRecorder :=
  {| buffer := [];
     last_input_time := last_input_time self;
     note_on_count := 0;
     log_output := log_output self;
     gui_open := gui_open self;
     connected_port_name := connected_port_name self |}.

(** ** File writer *)

(** The loop of [save_buffer_to_file]: [last_time] is the loop-carried
    variable, the result is the track in the order of the appends. *)
Fixpoint quantize (last_time : T) (buf : list (Message * T)) : list Message :=
  match buf with
  | [] => []
  | (msg, abs_time) :: rest =>
      let delta_seconds := t_sub abs_time last_time in
      let delta_ticks := second2tick delta_seconds ticks_per_beat 600000 in
      let new_msg := copy msg (to_int delta_ticks) in
      new_msg :: quantize abs_time rest
  end.

(** [self.buffer[0][1] if self.buffer else 0] *)
Definition first_time (buf : list (Message * T)) : T :=
  match buf with
  | (_, abs_time) :: _ => abs_time
  | [] => t_zero
  end.

Definition build_track (buf : list (Message * T)) : list Message :=
  quantize (first_time buf) buf.

Definition save_buffer_to_file (self : MidiRecorder) (force : bool)
  : MidiRecorder * list effect :=
  if (note_on_count self <? MIN_NOTES) && negb force then
    (clear (log self (LDiscardingOnly (note_on_count self))), [])
  else if note_on_count self <=? 3 then
    (clear (log self LDiscardingNoNotes), [])
  else
    let track := build_track (buffer self) in
    (clear (log self (LSaved (note_on_count self))), [MidSave track]).

(** ** Connection manager *)

(** [inputs] is what [mido.get_input_names()] returns at the call. *)
Definition find_midi_input (inputs : list string) : option string :=
  if truthy MIDI_PORT_NAME then
    match MIDI_PORT_NAME with
    | Some name => if name_in name inputs then Some name else None
    | None => None
    end
  else
    match inputs with
    | first :: _ => Some first
    | [] => None
    end.

(** [time.sleep(RECONNECT_INTERVAL)] before the rest of the wait. *)
Definition after_sleep (rest : option (MidiRecorder * string * list effect))
  : option (MidiRecorder * string * list effect) :=
  match rest with
  | Some (self, port_name, effs) => Some (self, port_name, SleepReconnect :: effs)
  | None => None
  end.

(** The polling loop of [wait_for_midi_connection].  [polls] are the
    enumerations the successive iterations see, one per iteration; an
    iteration that finds no device sleeps [RECONNECT_INTERVAL] seconds
    before the next one.  [None] means that the loop is still waiting
    when the enumerations are used up.  The result is the recorder, the
    name returned and the pauses made. *)
Fixpoint wait_loop (self : MidiRecorder) (polls : list (list string))
  : option (MidiRecorder * string * list effect) :=
  match polls with
  | [] => None
  | inputs :: later =>
      match find_midi_input inputs with
      | Some port_name =>
          if truthy (Some port_name)
          then Some (log self (LDeviceFound port_name), port_name, [])
          else after_sleep (wait_loop self later)
      | None => after_sleep (wait_loop self later)
      end
  end.

Definition wait_for_midi_connection (self : MidiRecorder)
    (polls : list (list string))
  : option (MidiRecorder * string * list effect) :=
  wait_loop (log self LWaitingForDevice) polls.

(** What the transport shows to one call of [open_midi_input]. *)
Record Discovery : Type := mkDiscovery {
  inputs_now : list string;          (* enumeration at the first query *)
  inputs_later : list (list string); (* enumerations while waiting *)
  open_succeeds : bool               (* does [mido.open_input] return? *)
}.

(** A call either returns a value or raises. *)
Inductive result (A : Type) : Type :=
  | Returned (a : A)
  | Raised.
Arguments Returned {A} a.
Arguments Raised {A}.

Definition set_connected_port_name (self : MidiRecorder)
    (port_name : option string) : MidiRecorder :=
  {| buffer := buffer self;
     last_input_time := last_input_time self;
     note_on_count := note_on_count self;
     log_output := log_output self;
     gui_open := gui_open self;
     connected_port_name := port_name |}.

(** The handle [mido.open_input(port_name)] returns is represented by the
    name of the port it is open on.  The result is the recorder, the
    handle or the failure, and the pauses of the wait. *)
Definition open_midi_input (self : MidiRecorder) (d : Discovery)
  : option (MidiRecorder * result string * list effect) :=
  let found :=
    match find_midi_input (inputs_now d) with
    | Some port_name =>
        if truthy (Some port_name) then Some (self, port_name, [])
        else wait_for_midi_connection self (inputs_later d)
    | None => wait_for_midi_connection self (inputs_later d)
    end in
  match found with
  | None => None
  | Some (self, port_name, sleeps) =>
      let self := set_connected_port_name self (Some port_name) in
      let self := log self (LConnecting port_name) in
      if open_succeeds d then Some (self, Returned port_name, sleeps)
      else Some (log self (LFailedToOpen port_name), Raised, sleeps)
  end.

(** [available_ports] is what [mido.get_input_names()] returns. *)
Definition is_port_still_available (self : MidiRecorder)
    (available_ports : list string) : bool :=
  if negb (truthy (connected_port_name self)) then false
  else
    match connected_port_name self with
    | Some name => name_in name available_ports
    | None => false
    end.

(** ** Capture loop *)

(** [self.buffer.append((msg, now)); self.last_input_time = now] *)
Definition record_message (self : MidiRecorder) (msg : Message) (now : T)
  : MidiRecorder :=
  {| buffer := buffer self ++ [(msg, now)];
     last_input_time := now;
     note_on_count := note_on_count self;
     log_output := log_output self;
     gui_open := gui_open self;
     connected_port_name := connected_port_name self |}.

(** [self.note_on_count += 1] *)
Definition count_note_on (self : MidiRecorder) : MidiRecorder :=
  {| buffer := buffer self;
     last_input_time := last_input_time self;
     note_on_count := note_on_count self + 1;
     log_output := log_output self;
     gui_open := gui_open self;
     connected_port_name := connected_port_name self |}.

(** [msg.type == 'note_on' and msg.velocity > 0] *)
Definition is_note_start (msg : Message) : bool :=
  msg_type_eqb (type msg) note_on && (0 <? velocity msg).

(** The body of [for msg in port.iter_pending()]; [now] is the reading of
    [time.time()] taken for this message.  The result is the recorder, the
    local variable [note36] and the effects of the iteration. *)
Definition process_message (self : MidiRecorder) (note36 : Z)
    (msg : Message) (now : T) : MidiRecorder * Z * list effect :=
  if negb (is_realtime msg) then
    let self := record_message self msg now in
    if is_note_start msg then
      let self := count_note_on self in
      if (note msg =? 36) && (2 <=? note36) then
        let self := log self LNote36Pressed in
        let '(self, saved) := save_buffer_to_file self true in
        (log self (LGot msg), note36, saved ++ [AfterShowLogWindow])
      else if note msg =? 36 then
        (log self (LGot msg), note36 + 1, [])
      else
        (log self (LGot msg), 0, [])
    else
      (log self (LGot msg), note36, [])
  else
    (self, note36, []).

(** The [for] loop over the messages [port.iter_pending()] yields, each
    paired with the clock reading taken when it is handled. *)
Fixpoint drain (self : MidiRecorder) (note36 : Z)
    (pending : list (Message * T)) : MidiRecorder * Z * list effect :=
  match pending with
  | [] => (self, note36, [])
  | (msg, now) :: rest =>
      let '(self, note36, effs) := process_message self note36 msg now in
      let '(self, note36, effs') := drain self note36 rest in
      (self, note36, effs ++ effs')
  end.

(** The variables of [run_with_reconnect]: the recorder, the local [port]
    ([None] or an open handle) and the local [note36]. *)
Record LoopState : Type := mkLoop {
  recorder : MidiRecorder;
  port : option string;
  note36 : Z
}.

(** What the world supplies to one iteration of the inner [while True]. *)
Record Tick : Type := mkTick {
  available_ports : list string;  (* enumeration at the liveness check *)
  pending : list (Message * T);   (* messages [iter_pending] yields *)
  pending_raises : bool;          (* does the iteration then raise? *)
  now_at_check : T                (* [time.time()] at the timeout check *)
}.

(** How an iteration of the inner loop ends. *)
Inductive control : Type :=
  | Continue  (* falls through to the next iteration *)
  | Break.    (* leaves the inner loop *)

(** The handler [except Exception as e] of the inner loop. *)
Definition on_processing_error (self : MidiRecorder) (port : option string)
    (note36 : Z) (effs : list effect) : LoopState * list effect * control :=
  let self := log self LErrorDuringProcessing in
  match port with
  | Some _ => (mkLoop self None note36, effs ++ [PortClose], Break)
  | None => (mkLoop self None note36, effs, Break)
  end.

(** One iteration of the inner [while True] of [run_with_reconnect]. *)
Definition inner_iteration (st : LoopState) (w : Tick)
  : LoopState * list effect * control :=
  let self := recorder st in
  if negb (is_port_still_available self (available_ports w)) then
    let self := log self LDisconnected in
    match port st with
    | Some _ => (mkLoop self None (note36 st), [PortClose], Break)
    | None => on_processing_error self None (note36 st) []
    end
  else
    let '(self, n36, effs) := drain self (note36 st) (pending w) in
    if pending_raises w then
      on_processing_error self (port st) n36 effs
    else
      let '(self, saved) :=
        match buffer self with
        | _ :: _ =>
            if t_gt (t_sub (now_at_check w) (last_input_time self))
                    NO_INPUT_TIMEOUT
            then save_buffer_to_file (log self LTimeoutReached) false
            else (self, [])
        | [] => (self, [])
        end in
      (mkLoop self (port st) n36, effs ++ saved, Continue).

(** The inner loop over the iterations the world supplies; [Continue]
    means that the loop is still running when they are used up. *)
Fixpoint inner_loop (st : LoopState) (ticks : list Tick)
  : LoopState * list effect * control :=
  match ticks with
  | [] => (st, [], Continue)
  | w :: later =>
      match inner_iteration st w with
      | (st, effs, Break) => (st, effs, Break)
      | (st, effs, Continue) =>
          let '(st, effs', c) := inner_loop st later in
          (st, effs ++ effs', c)
      end
  end.

(** The branch [if port is None] of the outer loop: discovery, open, then
    the inner loop; the handler of the outer [try] when the open raises. *)
Definition reconnect (st : LoopState) (d : Discovery) (ticks : list Tick)
  : option (LoopState * list effect * control) :=
  match open_midi_input (recorder st) d with
  | None => None
  | Some (self, Returned handle, sleeps) =>
      let self := log self LConnected in
      let '(st', effs, c) := inner_loop (mkLoop self (Some handle) 0) ticks in
      Some (st', sleeps ++ effs, c)
  | Some (self, Raised, sleeps) =>
      let self := log self LConnectionError in
      let self := log self LWaitingBeforeReconnect in
      Some (mkLoop self None (note36 st), sleeps ++ [SleepReconnect], Break)
  end.

(** One iteration of the outer [while True].  [None]: discovery is
    still waiting for a device; [Continue]: the inner loop is still
    running; [Break]: the iteration is over. *)
Definition outer_iteration (st : LoopState) (d : Discovery)
    (ticks : list Tick) : option (LoopState * list effect * control) :=
  match port st with
  | None => reconnect st d ticks
  | Some _ =>
      Some (inner_loop (mkLoop (recorder st) (port st) 0) ticks)
  end.

End Recorder.

Arguments MidiRecorder T : clear implicits.
Arguments LoopState T : clear implicits.
Arguments Tick T : clear implicits.

(** ** An executable instance: exact rational seconds *)

(** Timestamps as rationals kept in lowest terms, [second2tick] as the
    quotient [second / (tempo * 1e-6 / ticks_per_beat)] without rounding,
    [int] as truncation toward zero and the default resolution of 480
    ticks per beat.  It serves to run the recorder on concrete inputs. *)
Definition Q_second2tick (second : Q) (tpb tempo : Z) : Q :=
  (second / ((inject_Z tempo * (1 # 1000000)) / inject_Z tpb))%Q.

Definition Q_to_int (x : Q) : Z := Z.quot (Qnum x) (Z.pos (Qden x)).

#[export] Instance QTime : TimeOps Q := {|
  t_zero := 0%Q;
  t_sub := fun a b => Qred (a - b);
  t_gt := fun d n => negb (Qle_bool d (inject_Z n));
  second2tick := fun second tpb tempo => Qred (Q_second2tick second tpb tempo);
  to_int := Q_to_int;
  ticks_per_beat := 480
|}.

(** Sample data. *)
Definition press (n : Z) : Message := mkMessage note_on n 100 0.
Definition release (n : Z) : Message := mkMessage note_off n 0 0.

Definition fresh : MidiRecorder Q :=
  mkRecorder [] 0%Q 0 [] false None.

Definition piano : string := "Piano"%string.
Definition organ : string := "Organ"%string.

(** A session of two buffered note-starts whose counter reads [n]. *)
Definition session (n : Z) : MidiRecorder Q :=
  mkRecorder [(press 60, 1%Q); (press 62, (3 # 2)%Q)] (3 # 2)%Q n []
             false (Some piano).

Definition three_presses : list (Message * Q) :=
  [(press 36, 1%Q); (press 36, 2%Q); (press 36, 3%Q)].

Definition four_presses : list (Message * Q) :=
  three_presses ++ [(press 36, 4%Q)].

(** Two presses of pitch 36 with the release in between. *)
Definition two_presses : list (Message * Q) :=
  [(press 36, 1%Q); (release 36, (3 # 2)%Q); (press 36, 2%Q)].

(** A run of pitch 36 broken by pitch 10. *)
Definition broken_run : list (Message * Q) :=
  [(press 36, 1%Q); (press 10, 2%Q); (press 36, 3%Q)].

(** A clock message, a press and its release. *)
Definition one_note : list (Message * Q) :=
  [(mkMessage clock 0 0 0, 1%Q); (press 60, 1%Q); (release 60, 2%Q)].

(** The piano is enumerated and opens. *)
Definition plugged : Discovery := mkDiscovery [piano] [] true.

(** An iteration that finds the enumeration empty. *)
Definition unplugged_tick : Tick Q := mkTick [] [] false 0%Q.

(** An iteration whose pending messages end in a failure. *)
Definition failing_tick : Tick Q := mkTick [piano] one_note true 2%Q.

Definition listening : LoopState Q := mkLoop (session 2) (Some piano) 0.

(** The loop started with the piano plugged; the first iteration of the
    inner loop finds it gone. *)
Definition after_unplug : option (LoopState Q * list effect * control) :=
  outer_iteration None (mkLoop fresh None 0) plugged [unplugged_tick].

(** ** Vocabulary of the specification *)

(** Length of the run of note-starts on pitch 36 at the end of [msgs]:
    the number of note-starts on pitch 36 received since the last
    note-start on another pitch.  Messages that are not note-starts
    neither extend nor break the run. *)
Definition run36_step (run : nat) (msg : Message) : nat :=
  if is_note_start msg then
    if note msg =? 36 then S run else O
  else run.

Definition consecutive36 (msgs : list Message) : nat :=
  fold_left run36_step msgs O.

(** The trigger pattern does not occur in [msgs]: no message of [msgs] is
    a note-start on pitch 36 that brings the run, [run] long before
    [msgs], to three or more. *)
Fixpoint trigger_free (run : nat) (msgs : list Message) : bool :=
  match msgs with
  | [] => true
  | msg :: rest =>
      let run' := run36_step run msg in
      negb (is_note_start msg && (note msg =? 36) && (3 <=? Z.of_nat run')) &&
      trigger_free run' rest
  end.

(** Number of note-starts among drained messages. *)
Definition note_starts {T : Type} (pending : list (Message * T)) : Z :=
  Z.of_nat (List.length (filter (fun p => is_note_start (fst p)) pending)).

(** The messages of a drain that reach the buffer. *)
Definition buffered {T : Type} (pending : list (Message * T))
  : list (Message * T) :=
  filter (fun p => negb (is_realtime (fst p))) pending.

(** ** The rest of the class *)

(** [MidiRecorder.__init__]; [now] is the reading of [time.time()]. *)
Definition init {T : Type} (now : T) : MidiRecorder T :=
  mkRecorder [] now 0 [] false None.

Definition set_gui_open {T : Type} (self : MidiRecorder T) (open : bool)
  : MidiRecorder T :=
  {| buffer := buffer self;
     last_input_time := last_input_time self;
     note_on_count := note_on_count self;
     log_output := log_output self;
     gui_open := open;
     connected_port_name := connected_port_name self |}.

(** [show_log_window] up to the point where it blocks in
    [window.wait_window()]: with the guard [if self.gui_open: return] it
    opens nothing ([None]); otherwise it sets [gui_open] and opens a
    window whose text area holds the lines of [log_output] (joined by
    newlines in the source). *)
Definition show_log_window {T : Type} (self : MidiRecorder T)
  : MidiRecorder T * option (list log_line) :=
  if gui_open self then (self, None)
  else (set_gui_open self true, Some (log_output self)).

(** The handler [on_close] of the window: [self.gui_open = False], then
    [window.destroy()]. *)
Definition on_close {T : Type} (self : MidiRecorder T) : MidiRecorder T :=
  set_gui_open self false.

(** The callbacks the Tk event loop can run: a scheduled
    [show_log_window] ([root.after(0, ..)]) and the [WM_DELETE_WINDOW]
    handler of an open log window. *)
Inductive tk_callback : Type :=
  | RunShowLogWindow
  | RunOnClose.

(** The recorder and the texts of the log windows that are open, newest
    first. *)
Record Desktop (T : Type) : Type := mkDesktop {
  owner : MidiRecorder T;
  windows : list (list log_line)
}.
Arguments mkDesktop {T} owner windows.
Arguments owner {T} d.
Arguments windows {T} d.

(** One callback.  [on_close] exists only as the handler of an open
    window: with no window there is nothing to run. *)
Definition tk_dispatch {T : Type} (desk : Desktop T) (cb : tk_callback)
  : Desktop T :=
  match cb with
  | RunShowLogWindow =>
      match show_log_window (owner desk) with
      | (self, Some text) => mkDesktop self (text :: windows desk)
      | (self, None) => mkDesktop self (windows desk)
      end
  | RunOnClose =>
      match windows desk with
      | _ :: others => mkDesktop (on_close (owner desk)) others
      | [] => desk
      end
  end.

Definition tk_run {T : Type} (desk : Desktop T) (cbs : list tk_callback)
  : Desktop T :=
  fold_left tk_dispatch cbs desk.

(** ** Invariants of the session *)

(** Number of note-starts in a track. *)
Definition track_note_starts (track : list Message) : Z :=
  Z.of_nat (List.length (filter is_note_start track)).

(** [note_on_count] is the number of note-starts in the buffer. *)
Definition counted {T : Type} (self : MidiRecorder T) : Prop :=
  note_on_count self = note_starts (buffer self).

(** [last_input_time] is the timestamp of the newest buffered message. *)
Definition stamped {T : Type} (self : MidiRecorder T) : Prop :=
  forall front msg t,
    buffer self = front ++ [(msg, t)] -> last_input_time self = t.

(** No realtime message is buffered. *)
Definition clean {T : Type} (self : MidiRecorder T) : Prop :=
  forallb (fun p => negb (is_realtime (fst p))) (buffer self) = true.

(** A call of the serializer is for a track with at least four
    note-starts and no realtime message. *)
Definition good_file (e : effect) : Prop :=
  match e with
  | MidSave track =>
      4 <= track_note_starts track /\
      forallb (fun msg => negb (is_realtime msg)) track = true
  | _ => True
  end.

Definition count_PortClose (effs : list effect) : nat :=
  List.length
    (filter (fun e => match e with PortClose => true | _ => false end) effs).

(** Further sample data. *)

(** Twelve note-starts half a second apart. *)
Fixpoint melody (n : nat) (t : Q) : list (Message * Q) :=
  match n with
  | O => []
  | S n' => (press 60, t) :: melody n' (t + (1 # 2))%Q
  end.

Definition take12 : MidiRecorder Q :=
  fst (fst (drain (init 0%Q) 0 (melody 12 1%Q))).

Definition silent_tick (now : Q) : Tick Q := mkTick [piano] [] false now.

Definition clock_only : list (Message * Q) :=
  [(mkMessage clock 0 0 0, 1%Q); (mkMessage active_sensing 0 0 0, 2%Q)].

Definition refused : Discovery := mkDiscovery [piano] [] false.

Definition late_arrival : Discovery := mkDiscovery [] [[]; []; [organ; piano]] true.

(** The state an iteration of the outer loop ends in ([fresh] when it is
    still waiting for a device). *)
Definition landed (o : option (LoopState Q * list effect * control))
  : LoopState Q :=
  match o with
  | Some (st, _, _) => st
  | None => mkLoop fresh None 0
  end.

Definition emitted (o : option (LoopState Q * list effect * control))
  : list effect :=
  match o with
  | Some (_, effs, _) => effs
  | None => []
  end.

Definition at_start : LoopState Q := mkLoop (init 0%Q) None 0.

(** The piano is plugged, twelve notes are played, and the next
    iteration comes after more than five minutes of silence. *)
Definition recital : list (Tick Q) :=
  [mkTick [piano] (melody 12 1%Q) false 7%Q; silent_tick 400%Q].

(** The first iteration of the outer loop: the piano is found, the notes
    are played. *)
Definition playing : option (LoopState Q * list effect * control) :=
  outer_iteration None at_start plugged
    [mkTick [piano] (melody 12 1%Q) false 7%Q].

(** The same followed by the long silence. *)
Definition first_session : option (LoopState Q * list effect * control) :=
  outer_iteration None at_start plugged recital.

(** The piano shows up at the third poll of the wait. *)
Definition opened_late : MidiRecorder Q * result string * list effect :=
  match open_midi_input None fresh late_arrival with
  | Some outcome => outcome
  | None => (fresh, Raised _, [])
  end.

Definition first_tick : Tick Q := mkTick [piano] one_note false 2%Q.
Definition second_tick : Tick Q := mkTick [piano] two_presses false 3%Q.

(** The trigger is scheduled twice, the window is dismissed, and the
    trigger is scheduled again. *)
Definition clicks : list tk_callback :=
  [RunShowLogWindow; RunShowLogWindow; RunOnClose; RunShowLogWindow].

Definition desktop : Desktop Q := mkDesktop (session 2) [].

(** Two presses of pitch 36, then the transport fails; after the
    reconnect the third press arrives. *)
Definition interrupted_tick : Tick Q :=
  mkTick [piano] [(press 36, 1%Q); (press 36, 2%Q)] true 2%Q.

Definition resumed_tick : Tick Q :=
  mkTick [piano] [(press 36, 3%Q)] false 3%Q.

Definition interrupted : LoopState Q * list effect * control :=
  inner_loop listening [interrupted_tick].

Definition resumed : option (LoopState Q * list effect * control) :=
  outer_iteration None (fst (fst interrupted)) plugged [resumed_tick].

(** The wait sees two empty enumerations before the piano, and the open
    fails. *)
Definition refused_late : Discovery :=
  mkDiscovery [] [[]; []; [piano]] false.

(** * Properties *)

Section FileWriter.

Context {T : Type} `{TimeOps T}.

Lemma save_cases (self : MidiRecorder T) (force : bool) :
  save_buffer_to_file self force =
    (clear (log self (LDiscardingOnly (note_on_count self))), []) \/
  save_buffer_to_file self force = (clear (log self LDiscardingNoNotes), []) \/
  save_buffer_to_file self force =
    (clear (log self (LSaved (note_on_count self))),
     [MidSave (build_track (buffer self))]).
Proof.
  unfold save_buffer_to_file.
  destruct ((note_on_count self <? MIN_NOTES) && negb force); auto.
  destruct (note_on_count self <=? 3); auto.
Qed.

(** C1. A save that is not forced and finds fewer than 10 note-starts
    discards the take and writes no file; a forced save with 4 to 9
    note-starts hands the quantized buffer to the serializer; with 3
    note-starts or fewer the take is discarded whatever [force] is. *)
Theorem save_threshold_decision (self : MidiRecorder T) :
  (note_on_count self < 10 ->
     save_buffer_to_file self false =
       (clear (log self (LDiscardingOnly (note_on_count self))), [])) /\
  (4 <= note_on_count self <= 9 ->
     save_buffer_to_file self true =
       (clear (log self (LSaved (note_on_count self))),
        [MidSave (build_track (buffer self))])) /\
  (note_on_count self <= 3 ->
     forall force,
       snd (save_buffer_to_file self force) = [] /\
       buffer (fst (save_buffer_to_file self force)) = []).
Proof.
  unfold save_buffer_to_file, MIN_NOTES.
  repeat split.
  - intros Hlt.
    apply Z.ltb_lt in Hlt. rewrite Hlt. reflexivity.
  - intros [Hlo Hhi].
    rewrite andb_false_r.
    destruct (Z.leb_spec (note_on_count self) 3); [lia | reflexivity].
  - destruct (_ && _); [reflexivity |].
    destruct (Z.leb_spec (note_on_count self) 3); [reflexivity | lia].
  - destruct (_ && _); [reflexivity |].
    destruct (Z.leb_spec (note_on_count self) 3); [reflexivity | lia].
Qed.

(** C4. After [save_buffer_to_file], on the discarding paths as on the
    writing path, the buffer is empty and [note_on_count] is 0. *)
Theorem save_leaves_session_empty (self : MidiRecorder T) (force : bool) :
  buffer (fst (save_buffer_to_file self force)) = [] /\
  note_on_count (fst (save_buffer_to_file self force)) = 0.
Proof.
  destruct (save_cases self force) as [E | [E | E]]; rewrite E; split; reflexivity.
Qed.

Lemma save_keeps_connected_port_name (self : MidiRecorder T) (force : bool) :
  connected_port_name (fst (save_buffer_to_file self force)) =
  connected_port_name self.
Proof.
  destruct (save_cases self force) as [E | [E | E]]; rewrite E; reflexivity.
Qed.

(** The track has one message per buffered pair. *)
Lemma quantize_length (buf : list (Message * T)) :
  forall last_time, List.length (quantize last_time buf) = List.length buf.
Proof.
  induction buf as [| [msg abs_time] rest IH]; intros last_time; simpl.
  - reflexivity.
  - now rewrite IH.
Qed.

(** The delta of a message that has a predecessor in the buffer is taken
    against that predecessor, whatever the loop started from. *)
Lemma quantize_successor (buf : list (Message * T)) :
  forall last_time i m1 t1 m2 t2,
    nth_error buf i = Some (m1, t1) ->
    nth_error buf (S i) = Some (m2, t2) ->
    nth_error (quantize last_time buf) (S i) =
      Some (mkMessage (type m2) (note m2) (velocity m2)
              (to_int (second2tick (t_sub t2 t1) ticks_per_beat 600000))).
Proof.
  induction buf as [| [msg abs_time] rest IH]; intros last_time i m1 t1 m2 t2 H1 H2.
  - destruct i; discriminate.
  - destruct i as [| i].
    + simpl in H1. injection H1 as -> ->.
      destruct rest as [| [msg' t'] rest']; [discriminate |].
      simpl in H2. injection H2 as -> ->.
      reflexivity.
    + simpl in H1.
      change (nth_error rest (S i) = Some (m2, t2)) in H2.
      change (nth_error (quantize abs_time rest) (S i) =
              Some (mkMessage (type m2) (note m2) (velocity m2)
                      (to_int (second2tick (t_sub t2 t1) ticks_per_beat 600000)))).
      eapply IH; eassumption.
Qed.

(** C6. When a non-empty buffer is written, the track has one message
    per buffered message, in arrival order, with the type, note and
    velocity of the buffered one; the [time] of the first is 0 and the
    [time] of each later one is [int(second2tick(t - t_prev,
    ticks_per_beat, 600000))].  The arithmetic is assumed to satisfy: the
    first timestamp minus itself is zero, zero seconds are zero ticks,
    and [int] of zero is 0. *)
Theorem written_track_deltas (self : MidiRecorder T) (force : bool)
    (track : list Message) :
  t_sub (first_time (buffer self)) (first_time (buffer self)) = t_zero ->
  second2tick t_zero ticks_per_beat 600000 = t_zero ->
  to_int t_zero = 0 ->
  buffer self <> [] ->
  snd (save_buffer_to_file self force) = [MidSave track] ->
  List.length track = List.length (buffer self) /\
  (forall msg t0,
     nth_error (buffer self) 0 = Some (msg, t0) ->
     nth_error track 0 =
       Some (mkMessage (type msg) (note msg) (velocity msg) 0)) /\
  (forall i m1 t1 m2 t2,
     nth_error (buffer self) i = Some (m1, t1) ->
     nth_error (buffer self) (S i) = Some (m2, t2) ->
     nth_error track (S i) =
       Some (mkMessage (type m2) (note m2) (velocity m2)
               (to_int (second2tick (t_sub t2 t1) ticks_per_beat 600000)))).
Proof.
  intros Hsub Htick Hint Hne Hsave.
  assert (track = build_track (buffer self)) as ->.
  { destruct (save_cases self force) as [E | [E | E]];
      rewrite E in Hsave; simpl in Hsave; congruence. }
  unfold build_track.
  split; [apply quantize_length |].
  split.
  - intros msg t0 H0.
    destruct (buffer self) as [| [m t] rest]; [contradiction |].
    simpl in H0. injection H0 as -> ->.
    simpl in *. unfold copy. now rewrite Hsub, Htick, Hint.
  - intros. eapply quantize_successor; eassumption.
Qed.

End FileWriter.

Section Discovery.

Lemma name_in_In (name : string) (names : list string) :
  name_in name names = true <-> In name names.
Proof.
  unfold name_in. rewrite existsb_exists. split.
  - intros [x [Hin Heq]]. apply String.eqb_eq in Heq. now subst.
  - intros Hin. exists name. split; [assumption | apply String.eqb_refl].
Qed.

Lemma truthy_Some (name : string) :
  name <> EmptyString -> truthy (Some name) = true.
Proof.
  intros Hne. simpl.
  destruct (String.eqb_spec name EmptyString); [contradiction | reflexivity].
Qed.

(** C7. [find_midi_input] is a function of the configured name and of the
    current enumeration alone.  With a preferred name configured it
    answers that name when the enumeration has it and [None] otherwise,
    never another device; with none configured it answers the first
    enumerated name, or [None] for an empty enumeration. *)
Theorem find_midi_input_query (inputs : list string) :
  (forall name, name <> EmptyString ->
     (In name inputs -> find_midi_input (Some name) inputs = Some name) /\
     (~ In name inputs -> find_midi_input (Some name) inputs = None)) /\
  find_midi_input None inputs = hd_error inputs.
Proof.
  split.
  - intros name Hne. unfold find_midi_input.
    rewrite (truthy_Some name Hne).
    split; intros Hin.
    + apply name_in_In in Hin. now rewrite Hin.
    + destruct (name_in name inputs) eqn:E; [| reflexivity].
      apply name_in_In in E. contradiction.
  - unfold find_midi_input. simpl. destruct inputs; reflexivity.
Qed.

End Discovery.

Section CaptureLoop.

Context {T : Type} `{TimeOps T}.

Variable MIDI_PORT_NAME : option string.

(** *** One message *)

Lemma note_start_not_realtime (msg : Message) :
  is_note_start msg = true -> is_realtime msg = false.
Proof.
  unfold is_note_start, is_realtime.
  destruct (type msg); simpl; intros E; try discriminate; reflexivity.
Qed.

(** The branch of the loop body taken by a note-start on pitch 36 that
    finds [note36 >= 2]. *)
Lemma process_trigger (self : MidiRecorder T) (n36 : Z) (msg : Message) (now : T) :
  is_note_start msg = true -> note msg = 36 -> 2 <= n36 ->
  let at_save := log (count_note_on (record_message self msg now)) LNote36Pressed in
  process_message self n36 msg now =
    (log (fst (save_buffer_to_file at_save true)) (LGot msg), n36,
     snd (save_buffer_to_file at_save true) ++ [AfterShowLogWindow]).
Proof.
  intros Hstart Hnote Hrun. unfold process_message.
  rewrite (note_start_not_realtime msg Hstart), Hstart, Hnote. simpl.
  destruct (Z.leb_spec 2 n36); [| lia].
  now destruct (save_buffer_to_file _ true).
Qed.

(** Every other message: nothing is saved and nothing is signalled. *)
Lemma process_quiet (self : MidiRecorder T) (n36 : Z) (msg : Message) (now : T) :
  is_note_start msg && (note msg =? 36) && (2 <=? n36) = false ->
  snd (process_message self n36 msg now) = [] /\
  buffer (fst (fst (process_message self n36 msg now))) =
    buffer self ++ buffered [(msg, now)] /\
  note_on_count (fst (fst (process_message self n36 msg now))) =
    note_on_count self + note_starts [(msg, now)].
Proof.
  intros Hquiet. unfold process_message, buffered, note_starts. simpl.
  destruct (is_realtime msg) eqn:Ert; simpl.
  - destruct (is_note_start msg) eqn:Ens.
    + apply note_start_not_realtime in Ens. congruence.
    + simpl. rewrite app_nil_r. repeat split. lia.
  - destruct (is_note_start msg) eqn:Ens; simpl in *.
    + rewrite Hquiet.
      destruct (note msg =? 36); simpl; repeat split; lia.
    + repeat split. lia.
Qed.

(** A message that makes the loop signal the log window is a trigger. *)
Lemma process_signal (self : MidiRecorder T) (n36 : Z) (msg : Message) (now : T) :
  existsb is_AfterShowLogWindow (snd (process_message self n36 msg now)) =
  is_note_start msg && (note msg =? 36) && (2 <=? n36).
Proof.
  destruct (is_note_start msg && (note msg =? 36) && (2 <=? n36)) eqn:E.
  - apply andb_prop in E as [E E3]. apply andb_prop in E as [E1 E2].
    apply Z.eqb_eq in E2. apply Z.leb_le in E3.
    rewrite (process_trigger self n36 msg now E1 E2 E3). simpl.
    rewrite existsb_app. simpl. apply orb_true_r.
  - destruct (process_quiet self n36 msg now E) as [-> _]. reflexivity.
Qed.

(** The counter after a message, against the run length of the
    specification: the counter is the run length capped at 2. *)
Lemma process_note36_run (self : MidiRecorder T) (n36 : Z) (run : nat)
    (msg : Message) (now : T) :
  n36 = Z.of_nat (Nat.min 2 run) ->
  snd (fst (process_message self n36 msg now)) =
    Z.of_nat (Nat.min 2 (run36_step run msg)).
Proof.
  intros Hn. unfold process_message, run36_step.
  destruct (is_realtime msg) eqn:Ert; cbn [negb fst snd].
  - destruct (is_note_start msg) eqn:Ens; [| assumption].
    apply note_start_not_realtime in Ens. congruence.
  - destruct (is_note_start msg); [| assumption].
    destruct (note msg =? 36); cbn [andb fst snd].
    + destruct (Z.leb_spec 2 n36).
      * destruct (save_buffer_to_file _ true). cbn [fst snd]. lia.
      * cbn [fst snd]. lia.
    + reflexivity.
Qed.

Lemma process_keeps_connected_port_name (self : MidiRecorder T) (n36 : Z)
    (msg : Message) (now : T) :
  connected_port_name (fst (fst (process_message self n36 msg now))) =
  connected_port_name self.
Proof.
  unfold process_message.
  destruct (is_realtime msg); simpl; [reflexivity |].
  destruct (is_note_start msg); [| reflexivity].
  destruct (_ && _).
  - match goal with
    | |- context [save_buffer_to_file ?r true] =>
        pose proof (save_keeps_connected_port_name r true) as Hk;
        destruct (save_buffer_to_file r true)
    end.
    simpl in *. assumption.
  - destruct (note msg =? 36); reflexivity.
Qed.

(** *** A drain *)

Lemma drain_cons (self : MidiRecorder T) (n36 : Z) (msg : Message) (now : T)
    (rest : list (Message * T)) :
  drain self n36 ((msg, now) :: rest) =
    (fst (fst (drain (fst (fst (process_message self n36 msg now)))
                     (snd (fst (process_message self n36 msg now))) rest)),
     snd (fst (drain (fst (fst (process_message self n36 msg now)))
                     (snd (fst (process_message self n36 msg now))) rest)),
     snd (process_message self n36 msg now) ++
     snd (drain (fst (fst (process_message self n36 msg now)))
                (snd (fst (process_message self n36 msg now))) rest)).
Proof.
  simpl.
  destruct (process_message self n36 msg now) as [[r1 n1] e1]. simpl.
  destruct (drain r1 n1 rest) as [[r2 n2] e2]. reflexivity.
Qed.

Lemma drain_app (front back : list (Message * T)) :
  forall (self : MidiRecorder T) (n36 : Z),
    drain self n36 (front ++ back) =
      (fst (fst (drain (fst (fst (drain self n36 front)))
                       (snd (fst (drain self n36 front))) back)),
       snd (fst (drain (fst (fst (drain self n36 front)))
                       (snd (fst (drain self n36 front))) back)),
       snd (drain self n36 front) ++
       snd (drain (fst (fst (drain self n36 front)))
                  (snd (fst (drain self n36 front))) back)).
Proof.
  induction front as [| [msg now] rest IH]; intros self n36.
  - simpl. now destruct (drain self n36 back) as [[r n] e].
  - rewrite <- app_comm_cons, !drain_cons, IH. simpl.
    now rewrite app_assoc.
Qed.

(** The counter after a drain that started from a counter in step with
    the run length. *)
Lemma drain_note36_run (pending : list (Message * T)) :
  forall (self : MidiRecorder T) (n36 : Z) (run : nat),
    n36 = Z.of_nat (Nat.min 2 run) ->
    snd (fst (drain self n36 pending)) =
      Z.of_nat (Nat.min 2 (fold_left run36_step (map fst pending) run)).
Proof.
  induction pending as [| [msg now] rest IH]; intros self n36 run Hn.
  - assumption.
  - rewrite drain_cons. simpl.
    apply IH. now apply process_note36_run.
Qed.

Lemma drain_keeps_connected_port_name (pending : list (Message * T)) :
  forall (self : MidiRecorder T) (n36 : Z),
    connected_port_name (fst (fst (drain self n36 pending))) =
    connected_port_name self.
Proof.
  induction pending as [| [msg now] rest IH]; intros self n36.
  - reflexivity.
  - rewrite drain_cons. simpl. rewrite IH.
    apply process_keeps_connected_port_name.
Qed.

Lemma note_starts_cons (p : Message * T) (rest : list (Message * T)) :
  note_starts (p :: rest) = note_starts [p] + note_starts rest.
Proof.
  unfold note_starts. simpl.
  destruct (is_note_start (fst p)); simpl List.length; lia.
Qed.


(** A drain in which the log window is never signalled only appends and
    counts. *)
Lemma drain_without_trigger (pending : list (Message * T)) :
  forall (self : MidiRecorder T) (n36 : Z),
    existsb is_AfterShowLogWindow (snd (drain self n36 pending)) = false ->
    snd (drain self n36 pending) = [] /\
    buffer (fst (fst (drain self n36 pending))) =
      buffer self ++ buffered pending /\
    note_on_count (fst (fst (drain self n36 pending))) =
      note_on_count self + note_starts pending.
Proof.
  induction pending as [| [msg now] rest IH]; intros self n36 Hno.
  - simpl. rewrite app_nil_r. unfold note_starts. simpl. repeat split. lia.
  - rewrite drain_cons in *. simpl in *.
    rewrite existsb_app in Hno. apply orb_false_elim in Hno as [Hmsg Hrest].
    rewrite process_signal in Hmsg.
    destruct (process_quiet self n36 msg now Hmsg) as (E1 & E2 & E3).
    destruct (IH _ _ Hrest) as (R1 & R2 & R3).
    rewrite E1, R1, R2, R3, E2, E3.
    rewrite (note_starts_cons (msg, now) rest).
    repeat split.
    + rewrite <- app_assoc. f_equal.
      unfold buffered. simpl. now destruct (is_realtime msg).
    + lia.
Qed.



Lemma inner_iteration_keeps_connected_port_name (st : LoopState T) (w : Tick T) :
  connected_port_name (recorder (fst (fst (inner_iteration st w)))) =
  connected_port_name (recorder st).
Proof.
  unfold inner_iteration.
  destruct (negb (is_port_still_available _ _)).
  - destruct (port st); reflexivity.
  - pose proof (drain_keeps_connected_port_name (pending w) (recorder st) (note36 st)) as Hd.
    destruct (drain (recorder st) (note36 st) (pending w)) as [[r n] e].
    simpl in Hd.
    destruct (pending_raises w).
    + unfold on_processing_error. destruct (port st); simpl; assumption.
    + destruct (buffer r).
      * simpl. assumption.
      * destruct (t_gt _ _); [| simpl; assumption].
        pose proof (save_keeps_connected_port_name (log r LTimeoutReached) false) as Hs.
        destruct (save_buffer_to_file (log r LTimeoutReached) false).
        simpl in *. congruence.
Qed.

(** *** The counter [note36] *)

Lemma process_note36_by_message (self other : MidiRecorder T) (n36 : Z)
    (msg : Message) (now now' : T) :
  snd (fst (process_message self n36 msg now)) =
  snd (fst (process_message other n36 msg now')).
Proof.
  unfold process_message.
  destruct (is_realtime msg); cbn [negb fst snd]; [reflexivity |].
  destruct (is_note_start msg); [| reflexivity].
  destruct (_ && _).
  - do 2 match goal with
         | |- context [save_buffer_to_file ?r true] =>
             destruct (save_buffer_to_file r true)
         end.
    reflexivity.
  - destruct (note msg =? 36); reflexivity.
Qed.

(** The counter after a drain depends on the counter before and on the
    messages, not on the recorder nor on the clock. *)
Lemma drain_note36_by_messages (pending : list (Message * T)) :
  forall (self other : MidiRecorder T) (n36 : Z),
    snd (fst (drain self n36 pending)) = snd (fst (drain other n36 pending)).
Proof.
  induction pending as [| [msg now] rest IH]; intros self other n36.
  - reflexivity.
  - rewrite !drain_cons. cbn [fst snd].
    rewrite (process_note36_by_message self other n36 msg now now).
    apply IH.
Qed.

Lemma inner_iteration_note36 (st st' : LoopState T) (w : Tick T)
    (effs : list effect) :
  inner_iteration st w = (st', effs, Continue) ->
  forall self : MidiRecorder T,
    note36 st' = snd (fst (drain self (note36 st) (pending w))).
Proof.
  unfold inner_iteration.
  destruct (negb (is_port_still_available _ _)).
  - destruct (port st); unfold on_processing_error; intros E; discriminate E.
  - intros E self.
    rewrite (drain_note36_by_messages (pending w) self (recorder st)).
    destruct (drain (recorder st) (note36 st) (pending w)) as [[r n] e].
    destruct (pending_raises w).
    + unfold on_processing_error in E. destruct (port st); discriminate E.
    + destruct (match buffer r with [] => _ | _ :: _ => _ end) as [r' saved].
      injection E as <- _. reflexivity.
Qed.

(** Over the iterations of one run of the inner loop, the counter is the
    one a single drain of all their messages gives. *)
Lemma inner_loop_note36 (ticks : list (Tick T)) :
  forall (st st' : LoopState T) (effs : list effect) (self : MidiRecorder T),
    inner_loop st ticks = (st', effs, Continue) ->
    note36 st' =
      snd (fst (drain self (note36 st) (List.concat (map pending ticks)))).
Proof.
  induction ticks as [| w later IH]; intros st st' effs self E.
  - injection E as <- _. reflexivity.
  - cbn [inner_loop] in E.
    destruct (inner_iteration st w) as [[st1 e1] [|]] eqn:Ew;
      [| discriminate E].
    destruct (inner_loop st1 later) as [[st2 e2] c2] eqn:El.
    injection E as <- _ ->.
    cbn [map List.concat]. rewrite drain_app. cbn [fst snd].
    rewrite (IH st1 st2 e2 (fst (fst (drain self (note36 st) (pending w)))) El).
    now rewrite (inner_iteration_note36 st st1 w e1 Ew self).
Qed.

(** Every entry into the inner loop starts the counter at 0, on the first
    connection as on a reconnect. *)
Lemma inner_loop_entered_at_zero (st : LoopState T) (d : Discovery)
    (ticks : list (Tick T)) :
  (forall handle,
     port st = Some handle ->
     outer_iteration MIDI_PORT_NAME st d ticks =
       Some (inner_loop (mkLoop (recorder st) (Some handle) 0) ticks)) /\
  (forall self handle sleeps,
     port st = None ->
     open_midi_input MIDI_PORT_NAME (recorder st) d =
       Some (self, Returned _ handle, sleeps) ->
     outer_iteration MIDI_PORT_NAME st d ticks =
       Some (fst (fst (inner_loop (mkLoop (log self LConnected)
                                          (Some handle) 0) ticks)),
             sleeps ++
             snd (fst (inner_loop (mkLoop (log self LConnected)
                                          (Some handle) 0) ticks)),
             snd (inner_loop (mkLoop (log self LConnected)
                                     (Some handle) 0) ticks))).
Proof.
  unfold outer_iteration, reconnect. split.
  - intros handle ->. reflexivity.
  - intros self handle sleeps -> ->.
    now destruct (inner_loop _ ticks) as [[st' effs] c].
Qed.

(** What a firing trigger does: the message is recorded and counted, the
    buffer is saved with [force=True], which writes the take when it has
    more than 3 note-starts and drops it otherwise, and the log window is
    scheduled; the session is empty afterwards. *)
Lemma process_trigger_outcome (self : MidiRecorder T) (n36 : Z)
    (msg : Message) (now : T) :
  is_note_start msg = true -> note msg = 36 -> 2 <= n36 ->
  snd (process_message self n36 msg now) =
    (if note_on_count self + 1 <=? 3 then []
     else [MidSave (build_track (buffer self ++ [(msg, now)]))]) ++
    [AfterShowLogWindow] /\
  buffer (fst (fst (process_message self n36 msg now))) = [] /\
  note_on_count (fst (fst (process_message self n36 msg now))) = 0 /\
  snd (fst (process_message self n36 msg now)) = n36.
Proof.
  intros Hstart H36 Hrun.
  rewrite (process_trigger self n36 msg now Hstart H36 Hrun). cbn [fst snd].
  destruct (save_leaves_session_empty
              (log (count_note_on (record_message self msg now)) LNote36Pressed)
              true) as [Hb Hc].
  repeat split; try assumption.
  unfold save_buffer_to_file.
  cbn [log count_note_on record_message note_on_count buffer negb].
  rewrite andb_false_r.
  now destruct (note_on_count self + 1 <=? 3).
Qed.

(** *** The trigger pattern *)

(** C2, as the code has it.  Within one run of the inner loop ([note36] is
    0 on entry, and the counter over its iterations is the counter of one
    drain of all their messages), a message fires the trigger exactly when
    it is a note-start on pitch 36 that is the third or a later one of a
    run of such note-starts not broken by a note-start on another pitch.
    Firing is: the message is recorded and counted, the buffer is saved
    with [force=True] (written when it holds more than 3 note-starts,
    dropped otherwise), the session is empty afterwards and the log window
    is scheduled.  Any other message causes no save and no signal.  Every
    entry into the inner loop, reconnects included, starts from 0. *)
Theorem trigger_on_third_consecutive_36 (at_entry self : MidiRecorder T)
    (earlier : list (Message * T)) (msg : Message) (now : T) :
  let n36 := snd (fst (drain at_entry 0 earlier)) in
  let fires := is_note_start msg && (note msg =? 36) &&
               (3 <=? Z.of_nat (consecutive36 (map fst earlier ++ [msg]))) in
  let at_save :=
    log (count_note_on (record_message self msg now)) LNote36Pressed in
  (fires = true ->
     process_message self n36 msg now =
       (log (fst (save_buffer_to_file at_save true)) (LGot msg), n36,
        snd (save_buffer_to_file at_save true) ++ [AfterShowLogWindow]) /\
     snd (process_message self n36 msg now) =
       (if note_on_count self + 1 <=? 3 then []
        else [MidSave (build_track (buffer self ++ [(msg, now)]))]) ++
       [AfterShowLogWindow] /\
     buffer (fst (fst (process_message self n36 msg now))) = [] /\
     note_on_count (fst (fst (process_message self n36 msg now))) = 0) /\
  (fires = false -> snd (process_message self n36 msg now) = []) /\
  (forall (st st' : LoopState T) (ticks : list (Tick T)) (effs : list effect),
     note36 st = 0 ->
     inner_loop st ticks = (st', effs, Continue) ->
     note36 st' =
       snd (fst (drain at_entry 0 (List.concat (map pending ticks))))) /\
  (forall (st : LoopState T) (d : Discovery) (ticks : list (Tick T)),
     (forall handle,
        port st = Some handle ->
        outer_iteration MIDI_PORT_NAME st d ticks =
          Some (inner_loop (mkLoop (recorder st) (Some handle) 0) ticks)) /\
     (forall opened handle sleeps,
        port st = None ->
        open_midi_input MIDI_PORT_NAME (recorder st) d =
          Some (opened, Returned _ handle, sleeps) ->
        outer_iteration MIDI_PORT_NAME st d ticks =
          Some (fst (fst (inner_loop (mkLoop (log opened LConnected)
                                             (Some handle) 0) ticks)),
                sleeps ++
                snd (fst (inner_loop (mkLoop (log opened LConnected)
                                             (Some handle) 0) ticks)),
                snd (inner_loop (mkLoop (log opened LConnected)
                                        (Some handle) 0) ticks)))).
Proof.
  intros n36 fires at_save.
  assert (Hn : n36 = Z.of_nat (Nat.min 2 (consecutive36 (map fst earlier)))).
  { apply (drain_note36_run earlier at_entry 0 0%nat). reflexivity. }
  assert (Hf : fires = is_note_start msg && (note msg =? 36) && (2 <=? n36)).
  { unfold fires, consecutive36. rewrite fold_left_app. cbn [fold_left].
    fold (consecutive36 (map fst earlier)).
    unfold run36_step.
    destruct (is_note_start msg); [| reflexivity].
    destruct (note msg =? 36); [| reflexivity].
    cbn [andb]. rewrite Hn.
    destruct (Z.leb_spec 3 (Z.of_nat (S (consecutive36 (map fst earlier)))));
      destruct (Z.leb_spec 2 (Z.of_nat (Nat.min 2 (consecutive36 (map fst earlier)))));
      try reflexivity; lia. }
  split; [| split; [| split]].
  - intros E. rewrite Hf in E.
    apply andb_prop in E as [E E3]. apply andb_prop in E as [E1 E2].
    apply Z.eqb_eq in E2. apply Z.leb_le in E3.
    destruct (process_trigger_outcome self n36 msg now E1 E2 E3)
      as (Heffs & Hbuf & Hcnt & _).
    split; [apply process_trigger; assumption |].
    split; [exact Heffs |]. split; assumption.
  - intros E. rewrite Hf in E. apply process_quiet. assumption.
  - intros st st' ticks effs Hzero E.
    rewrite (inner_loop_note36 ticks st st' effs at_entry E), Hzero.
    reflexivity.
  - intros st d ticks. apply inner_loop_entered_at_zero.
Qed.

(** C3, as the code has it.  A message that is not a note-start leaves
    [note36] alone; a note-start on a pitch other than 36 sets it to 0; a
    note-start on pitch 36 below the threshold adds 1 and fires nothing;
    a firing trigger leaves [note36] as it is (at 2, the counter never
    exceeds 2), so that the next note-start on pitch 36 fires again.
    The iterations of the inner loop change the counter through the
    drained messages only.  Apart from a note-start on another pitch,
    only a new entry into the inner loop (a reconnect) brings the counter
    back to 0. *)
Theorem note36_reset_by_other_pitch_only (self : MidiRecorder T) (n36 : Z)
    (msg : Message) (now : T) :
  (is_note_start msg = false ->
     snd (fst (process_message self n36 msg now)) = n36) /\
  (is_note_start msg = true -> note msg <> 36 ->
     snd (fst (process_message self n36 msg now)) = 0) /\
  (is_note_start msg = true -> note msg = 36 -> n36 < 2 ->
     snd (fst (process_message self n36 msg now)) = n36 + 1 /\
     snd (process_message self n36 msg now) = []) /\
  (is_note_start msg = true -> note msg = 36 -> 2 <= n36 ->
     snd (fst (process_message self n36 msg now)) = n36 /\
     In AfterShowLogWindow (snd (process_message self n36 msg now)) /\
     forall (self' : MidiRecorder T) (now' : T),
       In AfterShowLogWindow
          (snd (process_message self'
                  (snd (fst (process_message self n36 msg now))) msg now'))) /\
  (forall earlier : list (Message * T),
     0 <= snd (fst (drain self 0 earlier)) <= 2) /\
  (forall (st st' : LoopState T) (ticks : list (Tick T)) (effs : list effect),
     inner_loop st ticks = (st', effs, Continue) ->
     note36 st' =
       snd (fst (drain self (note36 st) (List.concat (map pending ticks))))) /\
  (forall (st : LoopState T) (d : Discovery) (ticks : list (Tick T)),
     (forall handle,
        port st = Some handle ->
        outer_iteration MIDI_PORT_NAME st d ticks =
          Some (inner_loop (mkLoop (recorder st) (Some handle) 0) ticks)) /\
     (forall opened handle sleeps,
        port st = None ->
        open_midi_input MIDI_PORT_NAME (recorder st) d =
          Some (opened, Returned _ handle, sleeps) ->
        outer_iteration MIDI_PORT_NAME st d ticks =
          Some (fst (fst (inner_loop (mkLoop (log opened LConnected)
                                             (Some handle) 0) ticks)),
                sleeps ++
                snd (fst (inner_loop (mkLoop (log opened LConnected)
                                             (Some handle) 0) ticks)),
                snd (inner_loop (mkLoop (log opened LConnected)
                                        (Some handle) 0) ticks)))).
Proof.
  split; [| split; [| split; [| split; [| split; [| split]]]]].
  - intros Hns. unfold process_message.
    destruct (is_realtime msg); cbn [negb fst snd]; [reflexivity |].
    now rewrite Hns.
  - intros Hstart Hother. unfold process_message.
    rewrite (note_start_not_realtime msg Hstart), Hstart. simpl.
    destruct (Z.eqb_spec (note msg) 36); [contradiction | reflexivity].
  - intros Hstart H36 Hlow. unfold process_message.
    rewrite (note_start_not_realtime msg Hstart), Hstart, H36.
    cbn [negb Z.eqb Pos.eqb andb].
    destruct (Z.leb_spec 2 n36); [lia |]. split; reflexivity.
  - intros Hstart H36 Hrun.
    rewrite (process_trigger self n36 msg now Hstart H36 Hrun). cbn [fst snd].
    repeat split.
    + apply in_or_app. right. left. reflexivity.
    + intros self' now'.
      rewrite (process_trigger self' n36 msg now' Hstart H36 Hrun). cbn [snd].
      apply in_or_app. right. left. reflexivity.
  - intros earlier.
    rewrite (drain_note36_run earlier self 0 0%nat eq_refl). lia.
  - intros st st' ticks effs E.
    exact (inner_loop_note36 ticks st st' effs self E).
  - intros st d ticks. apply inner_loop_entered_at_zero.
Qed.

Lemma drain_signal_by_messages (pending : list (Message * T)) :
  forall (self : MidiRecorder T) (n36 : Z) (run : nat),
    n36 = Z.of_nat (Nat.min 2 run) ->
    existsb is_AfterShowLogWindow (snd (drain self n36 pending)) =
    negb (trigger_free run (map fst pending)).
Proof.
  induction pending as [| [msg now] rest IH]; intros self n36 run Hn.
  - reflexivity.
  - rewrite drain_cons. cbn [snd map fst trigger_free].
    rewrite existsb_app, process_signal.
    rewrite (IH _ _ (run36_step run msg))
      by (now apply process_note36_run).
    rewrite negb_andb, negb_involutive. f_equal.
    unfold run36_step.
    destruct (is_note_start msg); [| reflexivity].
    destruct (note msg =? 36); [| reflexivity].
    cbn [andb]. subst n36.
    destruct (Z.leb_spec 2 (Z.of_nat (Nat.min 2 run)));
      destruct (Z.leb_spec 3 (Z.of_nat (S run))); try reflexivity; lia.
Qed.

(** C5, as the code has it.  [n36] is the counter before the drain and
    [run] the length of the run of pitch-36 note-starts it stands for.
    When the trigger pattern does not occur among the drained messages,
    [note_on_count] grows by the number of drained note-starts.  When a
    drained message fires the trigger, [note_on_count] is 0 once that
    message has been handled, and counts from there: if the pattern does
    not occur again it ends as the number of note-starts drained after
    that message. *)
Theorem drain_counts_note_starts (self : MidiRecorder T) (n36 : Z)
    (run : nat) (pending : list (Message * T)) :
  n36 = Z.of_nat (Nat.min 2 run) ->
  (trigger_free run (map fst pending) = true ->
     note_on_count (fst (fst (drain self n36 pending))) =
       note_on_count self + note_starts pending) /\
  (forall front msg now back,
     pending = front ++ (msg, now) :: back ->
     is_note_start msg = true ->
     note msg = 36 ->
     3 <= Z.of_nat (fold_left run36_step (map fst front ++ [msg]) run) ->
     note_on_count (fst (fst (drain self n36 (front ++ [(msg, now)])))) = 0 /\
     (trigger_free (fold_left run36_step (map fst front ++ [msg]) run)
                   (map fst back) = true ->
      note_on_count (fst (fst (drain self n36 pending))) = note_starts back)).
Proof.
  intros Hn. split.
  - intros Hfree.
    assert (Hno : existsb is_AfterShowLogWindow (snd (drain self n36 pending))
                  = false)
      by (rewrite (drain_signal_by_messages pending self n36 run Hn), Hfree;
          reflexivity).
    now destruct (drain_without_trigger pending self n36 Hno) as (_ & _ & E).
  - intros front msg now back -> Hstart H36 Hthree.
    pose proof (drain_note36_run front self n36 run Hn) as Hfront.
    rewrite fold_left_app in Hthree. cbn [fold_left] in Hthree.
    rewrite fold_left_app. cbn [fold_left].
    set (run1 := fold_left run36_step (map fst front) run) in *.
    assert (Hstep : run36_step run1 msg = S run1).
    { unfold run36_step. rewrite Hstart, H36. reflexivity. }
    rewrite Hstep in *.
    assert (Hn1 : 2 <= snd (fst (drain self n36 front))) by (rewrite Hfront; lia).
    destruct (process_trigger_outcome (fst (fst (drain self n36 front)))
                (snd (fst (drain self n36 front))) msg now Hstart H36 Hn1)
      as (_ & _ & Hzero & Hkeep).
    assert (Hat : drain self n36 (front ++ [(msg, now)]) =
                  (fst (fst (process_message (fst (fst (drain self n36 front)))
                               (snd (fst (drain self n36 front))) msg now)),
                   snd (fst (process_message (fst (fst (drain self n36 front)))
                               (snd (fst (drain self n36 front))) msg now)),
                   snd (drain self n36 front) ++
                   snd (process_message (fst (fst (drain self n36 front)))
                          (snd (fst (drain self n36 front))) msg now) ++ [])).
    { rewrite drain_app. cbn [drain].
      now destruct (process_message _ _ msg now) as [[r n] e]. }
    split.
    + rewrite Hat. cbn [fst]. exact Hzero.
    + intros Hfree.
      change (front ++ (msg, now) :: back)
        with (front ++ [(msg, now)] ++ back).
      rewrite app_assoc, drain_app, Hat. cbn [fst snd].
      assert (Hno : existsb is_AfterShowLogWindow
                      (snd (drain
                              (fst (fst (process_message
                                           (fst (fst (drain self n36 front)))
                                           (snd (fst (drain self n36 front)))
                                           msg now)))
                              (snd (fst (process_message
                                           (fst (fst (drain self n36 front)))
                                           (snd (fst (drain self n36 front)))
                                           msg now)))
                              back)) = false).
      { rewrite (drain_signal_by_messages back _ _ (S run1)), Hfree;
          [reflexivity |].
        rewrite Hkeep, Hfront. lia. }
      destruct (drain_without_trigger back _ _ Hno) as (_ & _ & E).
      rewrite E, Hzero. lia.
Qed.


(** *** Failure while draining *)

(** C8. When [iter_pending] raises during a drain on an open connection,
    the handler leaves the buffer and [note_on_count] as the drain had
    them at the failure (with no save in between: the old buffer followed
    by every message drained before the failure), closes the port, sets
    [port] to [None] and leaves the inner loop, so that the next
    iteration of the outer loop starts with discovery. *)
Theorem drain_failure_keeps_buffer (st : LoopState T) (w : Tick T)
    (handle : string) :
  port st = Some handle ->
  is_port_still_available (recorder st) (available_ports w) = true ->
  pending_raises w = true ->
  let reached := drain (recorder st) (note36 st) (pending w) in
  let after := fst (fst (inner_iteration st w)) in
  snd (fst (inner_iteration st w)) = snd reached ++ [PortClose] /\
  snd (inner_iteration st w) = Break /\
  buffer (recorder after) = buffer (fst (fst reached)) /\
  note_on_count (recorder after) = note_on_count (fst (fst reached)) /\
  (snd reached = [] ->
     buffer (recorder after) = buffer (recorder st) ++ buffered (pending w) /\
     note_on_count (recorder after) =
       note_on_count (recorder st) + note_starts (pending w)) /\
  port after = None /\
  (forall (d : Discovery) (ticks : list (Tick T)),
     outer_iteration MIDI_PORT_NAME after d ticks =
     reconnect MIDI_PORT_NAME after d ticks).
Proof.
  intros Hport Hlive Hraise reached after.
  assert (Hstep : inner_iteration st w =
                  (mkLoop (log (fst (fst reached)) LErrorDuringProcessing) None
                          (snd (fst reached)),
                   snd reached ++ [PortClose], Break)).
  { unfold inner_iteration. rewrite Hlive. cbn [negb].
    fold reached. destruct reached as [[r n] e].
    rewrite Hraise, Hport. reflexivity. }
  unfold after. rewrite Hstep. cbn [fst snd recorder port].
  split; [reflexivity |].
  split; [reflexivity |].
  split; [reflexivity |].
  split; [reflexivity |].
  split; [| split; [reflexivity |]].
  - intros Hnone.
    assert (Hno : existsb is_AfterShowLogWindow
                    (snd (drain (recorder st) (note36 st) (pending w))) = false).
    { fold reached. rewrite Hnone. reflexivity. }
    destruct (drain_without_trigger _ _ _ Hno) as (_ & Hbuf & Hcnt).
    split; assumption.
  - intros d ticks. reflexivity.
Qed.

(** *** Liveness check *)

(** C9, as the code has it.  [is_port_still_available] answers [False]
    while no name has been selected yet; once [open_midi_input] has
    selected a name it answers whether that name is enumerated, and the
    inner loop never unsets the name, also when it closes the port. *)
Theorem liveness_checks_selected_name (self : MidiRecorder T)
    (available_ports : list string) :
  (connected_port_name self = None ->
     is_port_still_available self available_ports = false) /\
  (forall name, name <> EmptyString ->
     connected_port_name self = Some name ->
     is_port_still_available self available_ports =
       name_in name available_ports) /\
  (forall (st : LoopState T) (w : Tick T),
     recorder st = self ->
     connected_port_name (recorder (fst (fst (inner_iteration st w)))) =
       connected_port_name self).
Proof.
  repeat split.
  - intros Hnone. unfold is_port_still_available. now rewrite Hnone.
  - intros name Hne Hsome. unfold is_port_still_available.
    rewrite Hsome, (truthy_Some name Hne). reflexivity.
  - intros st w <-. apply inner_iteration_keeps_connected_port_name.
Qed.

End CaptureLoop.

(** * The properties on concrete runs *)

Lemma save_threshold_decision_witness :
  save_buffer_to_file (session 5) false =
    (clear (log (session 5) (LDiscardingOnly 5)), []) /\
  save_buffer_to_file (session 7) true =
    (clear (log (session 7) (LSaved 7)),
     [MidSave (build_track (buffer (session 7)))]) /\
  snd (save_buffer_to_file (session 2) true) = [].
Proof.
  split; [| split].
  - apply (proj1 (save_threshold_decision (session 5))). simpl. lia.
  - apply (proj1 (proj2 (save_threshold_decision (session 7)))). simpl. lia.
  - apply (proj2 (proj2 (save_threshold_decision (session 2)))). simpl. lia.
Defined.

Lemma Q_sub_self (t : Q) : Qred (t - t) = 0%Q.
Proof.
  change 0%Q with (Qred 0). apply Qred_complete. apply Qplus_opp_r.
Qed.

Lemma written_track_deltas_witness :
  List.length (build_track (buffer (session 5))) = 2%nat /\
  nth_error (build_track (buffer (session 5))) 0 =
    Some (mkMessage note_on 60 100 0) /\
  nth_error (build_track (buffer (session 5))) 1 =
    Some (mkMessage note_on 62 100 400).
Proof.
  destruct (written_track_deltas (session 5) true
              (build_track (buffer (session 5))))
    as (Hlen & Hfirst & Hnext).
  - apply Q_sub_self.
  - reflexivity.
  - reflexivity.
  - simpl. discriminate.
  - vm_compute. reflexivity.
  - split; [exact Hlen | split].
    + apply (Hfirst (press 60) 1%Q). reflexivity.
    + apply (Hnext 0%nat (press 60) 1%Q (press 62) (3 # 2)%Q); reflexivity.
Defined.

Lemma find_midi_input_query_witness :
  find_midi_input (Some piano) [organ; piano] = Some piano /\
  find_midi_input (Some piano) [organ] = None.
Proof.
  assert (Hne : piano <> EmptyString) by discriminate.
  split.
  - apply (proj1 (proj1 (find_midi_input_query [organ; piano]) piano Hne)).
    simpl. auto.
  - apply (proj2 (proj1 (find_midi_input_query [organ]) piano Hne)).
    simpl. intros [E | []]. discriminate E.
Defined.

Lemma trigger_on_third_consecutive_36_witness :
  (snd (process_message (session 2) 2 (press 36) 3%Q) = [AfterShowLogWindow] /\
   buffer (fst (fst (process_message (session 2) 2 (press 36) 3%Q))) = [] /\
   note_on_count (fst (fst (process_message (session 2) 2 (press 36) 3%Q))) = 0) /\
  snd (process_message (session 2) 1 (press 36) 4%Q) = [] /\
  note36 (fst (fst (inner_loop listening [first_tick; second_tick]))) = 2.
Proof.
  destruct (trigger_on_third_consecutive_36 None fresh (session 2)
              two_presses (press 36) 3%Q) as (Hfire & _ & Hloop & _).
  destruct (Hfire eq_refl) as (_ & Heffs & Hbuf & Hcnt).
  split; [| split].
  - split; [exact Heffs | split; [exact Hbuf | exact Hcnt]].
  - exact (proj1 (proj2 (trigger_on_third_consecutive_36 None fresh
                           (session 2) broken_run (press 36) 4%Q)) eq_refl).
  - rewrite (Hloop listening
               (fst (fst (inner_loop listening [first_tick; second_tick])))
               [first_tick; second_tick]
               (snd (fst (inner_loop listening [first_tick; second_tick])))
               eq_refl);
      vm_compute; reflexivity.
Defined.

Lemma note36_reset_by_other_pitch_only_witness :
  snd (fst (process_message (session 2) 2 (release 36) 1%Q)) = 2 /\
  snd (fst (process_message (session 2) 2 (press 10) 1%Q)) = 0 /\
  snd (fst (process_message (session 2) 1 (press 36) 1%Q)) = 1 + 1 /\
  snd (fst (process_message (session 2) 2 (press 36) 1%Q)) = 2.
Proof.
  split; [| split; [| split]].
  - apply (proj1 (note36_reset_by_other_pitch_only None (session 2) 2
                    (release 36) 1%Q)).
    reflexivity.
  - apply (proj1 (proj2 (note36_reset_by_other_pitch_only None (session 2) 2
                           (press 10) 1%Q))).
    + reflexivity.
    + simpl. lia.
  - apply (proj1 (proj2 (proj2 (note36_reset_by_other_pitch_only None
                                  (session 2) 1 (press 36) 1%Q)))).
    + reflexivity.
    + reflexivity.
    + lia.
  - apply (proj1 (proj2 (proj2 (proj2 (note36_reset_by_other_pitch_only None
                                         (session 2) 2 (press 36) 1%Q))))).
    + reflexivity.
    + reflexivity.
    + lia.
Defined.

Lemma drain_counts_note_starts_witness :
  note_on_count (fst (fst (drain (session 2) 0 one_note))) = 2 + 1 /\
  note_on_count
    (fst (fst (drain fresh 0
                 ([(press 36, 1%Q); (press 36, 2%Q)] ++
                  (press 36, 3%Q) :: [(press 60, 4%Q)])))) = 1.
Proof.
  split.
  - apply (proj1 (drain_counts_note_starts (session 2) 0 0%nat one_note
                    eq_refl)).
    reflexivity.
  - apply (proj2 (drain_counts_note_starts fresh 0 0%nat
                    ([(press 36, 1%Q); (press 36, 2%Q)] ++
                     (press 36, 3%Q) :: [(press 60, 4%Q)])
                    eq_refl)
             [(press 36, 1%Q); (press 36, 2%Q)] (press 36) 3%Q
             [(press 60, 4%Q)]).
    + reflexivity.
    + reflexivity.
    + reflexivity.
    + simpl. lia.
    + reflexivity.
Defined.


Lemma drain_failure_keeps_buffer_witness :
  buffer (recorder (fst (fst (inner_iteration listening failing_tick)))) =
    buffer (session 2) ++ [(press 60, 1%Q); (release 60, 2%Q)] /\
  port (fst (fst (inner_iteration listening failing_tick))) = None.
Proof.
  destruct (drain_failure_keeps_buffer None listening failing_tick piano
              eq_refl eq_refl eq_refl)
    as (_ & _ & _ & _ & Hkept & Hport & _).
  split.
  - apply Hkept. reflexivity.
  - exact Hport.
Defined.

Lemma liveness_checks_selected_name_witness :
  is_port_still_available fresh [piano] = false /\
  is_port_still_available (session 2) [organ; piano] = true.
Proof.
  split.
  - apply (proj1 (liveness_checks_selected_name fresh [piano])). reflexivity.
  - rewrite (proj1 (proj2 (liveness_checks_selected_name (session 2)
                             [organ; piano])) piano).
    + reflexivity.
    + discriminate.
    + reflexivity.
Defined.

(** The two event sequences of the specification's trigger property: the
    third of three presses fires; after a run broken by pitch 10 two
    presses do not fire and the third one does. *)
Example three_presses_fire :
  snd (drain fresh 0 three_presses) = [AfterShowLogWindow].
Proof. reflexivity. Qed.

Example broken_run_needs_three_again :
  snd (drain fresh 0 (broken_run ++ [(press 36, 4%Q)])) = [] /\
  filter is_AfterShowLogWindow
    (snd (drain fresh 0 (broken_run ++ [(press 36, 4%Q); (press 36, 5%Q)]))) =
    [AfterShowLogWindow].
Proof. split; reflexivity. Qed.

(** * Where the code departs from the specification *)

(** C2: two presses of pitch 36, a failure of the transport and the
    reconnect, then the third press: a run of three note-starts on pitch
    36 with no other note-start in between, and the trigger does not
    fire. *)
Lemma run_across_reconnect_does_not_fire :
  consecutive36
    (map fst (pending interrupted_tick ++ pending resumed_tick)) = 3%nat /\
  snd interrupted = Break /\
  port (fst (fst interrupted)) = None /\
  existsb is_AfterShowLogWindow
    (snd (fst interrupted) ++ emitted resumed) = false /\
  buffer (recorder (landed resumed)) =
    buffer (session 2) ++ pending interrupted_tick ++ pending resumed_tick.
Proof.
  vm_compute. repeat split.
Qed.

(** C3: after the trigger has fired on the third press [note36] is 2, not
    0, and the fourth press fires again. *)
Lemma note36_kept_after_trigger :
  snd (drain fresh 0 three_presses) = [AfterShowLogWindow] /\
  snd (fst (drain fresh 0 three_presses)) <> 0 /\
  snd (drain fresh 0 four_presses) = [AfterShowLogWindow; AfterShowLogWindow].
Proof.
  split; [reflexivity | split; [| reflexivity]].
  intros E. vm_compute in E. discriminate E.
Qed.

(** C5: three note-starts on pitch 36 are drained and [note_on_count] is
    0 afterwards, not 3: the forced save of the third press has cleared
    it. *)
Lemma drain_count_cleared_by_trigger :
  note_on_count (fst (fst (drain fresh 0 three_presses))) <>
  note_on_count fresh + note_starts three_presses.
Proof.
  intros E. vm_compute in E. discriminate E.
Qed.

(** C9: the inner loop has closed the port and set [port] to [None], and
    the liveness check answers [True] as soon as the piano is enumerated
    again. *)
Lemma liveness_true_without_open_port :
  match after_unplug with
  | Some (st, effs, Break) =>
      effs = [PortClose] /\
      port st = None /\
      is_port_still_available (recorder st) [piano] = true
  | _ => False
  end.
Proof.
  vm_compute. repeat split.
Qed.

(** * Further properties of the code *)

(** ** What every step of the loop preserves *)

Section Preservation.

Context {T : Type} `{TimeOps T}.

Variable MIDI_PORT_NAME : option string.

(** A property of the recorder that the elementary updates keep. *)
Variable P : MidiRecorder T -> Prop.

Hypothesis P_log : forall self line, P self -> P (log self line).
Hypothesis P_clear : forall self, P self -> P (clear self).
Hypothesis P_record :
  forall self msg now,
    P self -> is_realtime msg = false -> is_note_start msg = false ->
    P (record_message self msg now).
Hypothesis P_count :
  forall self msg now,
    P self -> is_realtime msg = false -> is_note_start msg = true ->
    P (count_note_on (record_message self msg now)).
Hypothesis P_select :
  forall self name, P self -> P (set_connected_port_name self name).

Lemma save_preserves (self : MidiRecorder T) (force : bool) :
  P self -> P (fst (save_buffer_to_file self force)).
Proof.
  intros HP.
  destruct (save_cases self force) as [E | [E | E]]; rewrite E; cbn [fst];
    apply P_clear, P_log, HP.
Qed.

Lemma process_preserves (self : MidiRecorder T) (n36 : Z) (msg : Message)
    (now : T) :
  P self -> P (fst (fst (process_message self n36 msg now))).
Proof.
  intros HP. unfold process_message.
  destruct (is_realtime msg) eqn:Ert; cbn [negb fst]; [assumption |].
  destruct (is_note_start msg) eqn:Ens.
  - destruct (_ && _).
    + match goal with
      | |- context [save_buffer_to_file ?r true] =>
          pose proof (save_preserves r true) as Hs;
          destruct (save_buffer_to_file r true)
      end.
      cbn [fst] in *. apply P_log, Hs, P_log, P_count; assumption.
    + destruct (note msg =? 36); cbn [fst]; apply P_log, P_count; assumption.
  - cbn [fst]. apply P_log, P_record; assumption.
Qed.

Lemma drain_preserves (pending : list (Message * T)) :
  forall (self : MidiRecorder T) (n36 : Z),
    P self -> P (fst (fst (drain self n36 pending))).
Proof.
  induction pending as [| [msg now] rest IH]; intros self n36 HP.
  - assumption.
  - rewrite drain_cons. cbn [fst]. apply IH, process_preserves, HP.
Qed.

Lemma inner_iteration_preserves (st : LoopState T) (w : Tick T) :
  P (recorder st) -> P (recorder (fst (fst (inner_iteration st w)))).
Proof.
  intros HP. unfold inner_iteration.
  destruct (negb (is_port_still_available _ _)).
  - destruct (port st); cbn; apply P_log; try apply P_log; assumption.
  - pose proof (drain_preserves (pending w) (recorder st) (note36 st) HP) as Hd.
    destruct (drain (recorder st) (note36 st) (pending w)) as [[r n] e].
    cbn [fst] in Hd.
    destruct (pending_raises w).
    + unfold on_processing_error. destruct (port st); cbn; apply P_log, Hd.
    + destruct (buffer r).
      * cbn. assumption.
      * destruct (t_gt _ _); [| cbn; assumption].
        pose proof (save_preserves (log r LTimeoutReached) false
                      (P_log r LTimeoutReached Hd)) as Hs.
        destruct (save_buffer_to_file (log r LTimeoutReached) false).
        cbn in *. assumption.
Qed.

Lemma inner_loop_preserves (ticks : list (Tick T)) :
  forall st : LoopState T,
    P (recorder st) -> P (recorder (fst (fst (inner_loop st ticks)))).
Proof.
  induction ticks as [| w later IH]; intros st HP.
  - assumption.
  - cbn [inner_loop].
    pose proof (inner_iteration_preserves st w HP) as Hw.
    destruct (inner_iteration st w) as [[st1 e1] [|]]; cbn [fst] in Hw.
    + pose proof (IH st1 Hw) as Hl.
      destruct (inner_loop st1 later) as [[st2 e2] c2]. assumption.
    + assumption.
Qed.

Lemma wait_loop_preserves (polls : list (list string)) :
  forall (self after : MidiRecorder T) (port_name : string)
         (sleeps : list effect),
    wait_loop MIDI_PORT_NAME self polls = Some (after, port_name, sleeps) ->
    P self -> P after.
Proof.
  induction polls as [| inputs later IH]; intros self after port_name sleeps E HP.
  - discriminate.
  - cbn [wait_loop] in E.
    assert (Hlater : after_sleep (wait_loop MIDI_PORT_NAME self later) =
                     Some (after, port_name, sleeps) -> P after).
    { unfold after_sleep.
      destruct (wait_loop MIDI_PORT_NAME self later) as [[[r p] e] |] eqn:El;
        [| discriminate].
      intros E0. injection E0 as <- _ _. eapply IH; eassumption. }
    destruct (find_midi_input MIDI_PORT_NAME inputs) as [found |].
    + destruct (truthy (Some found)).
      * injection E as <- _ _. apply P_log, HP.
      * now apply Hlater.
    + now apply Hlater.
Qed.

Lemma open_midi_input_preserves (self after : MidiRecorder T)
    (d : Discovery) (res : result string) (sleeps : list effect) :
  open_midi_input MIDI_PORT_NAME self d = Some (after, res, sleeps) ->
  P self -> P after.
Proof.
  unfold open_midi_input, wait_for_midi_connection. intros E HP.
  match type of E with
  | match ?found with _ => _ end = _ =>
      assert (Hfound : forall self0 port_name sleeps0,
                 found = Some (self0, port_name, sleeps0) -> P self0);
      [| destruct found as [[[self0 port_name] sleeps0] |]; [| discriminate];
         specialize (Hfound self0 port_name sleeps0 eq_refl) ]
  end.
  - intros self0 port_name sleeps0 E0.
    destruct (find_midi_input MIDI_PORT_NAME (inputs_now d)) as [found |].
    + destruct (truthy (Some found)).
      * injection E0 as <- _ _. assumption.
      * eapply wait_loop_preserves; [exact E0 | apply P_log, HP].
    + eapply wait_loop_preserves; [exact E0 | apply P_log, HP].
  - destruct (open_succeeds d); injection E as <- _ _.
    + apply P_log, P_select, Hfound.
    + apply P_log, P_log, P_select, Hfound.
Qed.

Lemma outer_iteration_preserves (st st' : LoopState T) (d : Discovery)
    (ticks : list (Tick T)) (effs : list effect) (c : control) :
  outer_iteration MIDI_PORT_NAME st d ticks = Some (st', effs, c) ->
  P (recorder st) -> P (recorder st').
Proof.
  unfold outer_iteration, reconnect. intros E HP.
  destruct (port st).
  - injection E as E.
    pose proof (inner_loop_preserves ticks (mkLoop (recorder st) (Some s) 0) HP) as Hl.
    rewrite E in Hl. exact Hl.
  - destruct (open_midi_input MIDI_PORT_NAME (recorder st) d)
      as [[[after [handle |]] sleeps] |] eqn:Eopen; [| | discriminate].
    + pose proof (open_midi_input_preserves _ _ _ _ _ Eopen HP) as Ho.
      pose proof (inner_loop_preserves ticks
                    (mkLoop (log after LConnected) (Some handle) 0)
                    (P_log _ _ Ho)) as Hl.
      destruct (inner_loop (mkLoop (log after LConnected) (Some handle) 0) ticks)
        as [[st1 e1] c1].
      injection E as <- _ _. exact Hl.
    + pose proof (open_midi_input_preserves _ _ _ _ _ Eopen HP) as Ho.
      injection E as <- _ _. cbn. apply P_log, P_log, Ho.
Qed.

End Preservation.

(** ** What every step of the loop emits *)

Section Emission.

Context {T : Type} `{TimeOps T}.

Variable MIDI_PORT_NAME : option string.

(** [P] is kept by the elementary updates as above; [Q] holds of what a
    save emits from a recorder that satisfies [P]. *)
Variable P : MidiRecorder T -> Prop.
Variable Q : effect -> Prop.

Hypothesis P_log : forall self line, P self -> P (log self line).
Hypothesis P_clear : forall self, P self -> P (clear self).
Hypothesis P_record :
  forall self msg now,
    P self -> is_realtime msg = false -> is_note_start msg = false ->
    P (record_message self msg now).
Hypothesis P_count :
  forall self msg now,
    P self -> is_realtime msg = false -> is_note_start msg = true ->
    P (count_note_on (record_message self msg now)).
Hypothesis P_select :
  forall self name, P self -> P (set_connected_port_name self name).
Hypothesis Q_save :
  forall self force, P self -> Forall Q (snd (save_buffer_to_file self force)).
Hypothesis Q_signal : Q AfterShowLogWindow.

Lemma process_emits (self : MidiRecorder T) (n36 : Z) (msg : Message)
    (now : T) :
  P self -> Forall Q (snd (process_message self n36 msg now)).
Proof.
  intros HP. unfold process_message.
  destruct (is_realtime msg) eqn:Ert; cbn [negb snd]; [constructor |].
  destruct (is_note_start msg) eqn:Ens; [| constructor].
  destruct (_ && _).
  - match goal with
    | |- context [save_buffer_to_file ?r true] =>
        assert (Hs : Forall Q (snd (save_buffer_to_file r true)))
          by (apply Q_save, P_log, P_count; assumption);
        destruct (save_buffer_to_file r true)
    end.
    cbn [snd] in *. apply Forall_app. split; [assumption |].
    constructor; [assumption | constructor].
  - destruct (note msg =? 36); constructor.
Qed.

Lemma drain_emits (pending : list (Message * T)) :
  forall (self : MidiRecorder T) (n36 : Z),
    P self -> Forall Q (snd (drain self n36 pending)).
Proof.
  induction pending as [| [msg now] rest IH]; intros self n36 HP.
  - constructor.
  - rewrite drain_cons. cbn [snd]. apply Forall_app. split.
    + apply process_emits, HP.
    + apply IH.
      apply (process_preserves P P_log P_clear P_record P_count), HP.
Qed.

Hypothesis Q_close : Q PortClose.
Hypothesis Q_sleep : Q SleepReconnect.

Lemma inner_iteration_emits (st : LoopState T) (w : Tick T) :
  P (recorder st) -> Forall Q (snd (fst (inner_iteration st w))).
Proof.
  intros HP. unfold inner_iteration.
  destruct (negb (is_port_still_available _ _)).
  - destruct (port st); cbn; repeat constructor; assumption.
  - pose proof (drain_emits (pending w) (recorder st) (note36 st) HP) as He.
    pose proof (drain_preserves P P_log P_clear P_record P_count
                  (pending w) (recorder st) (note36 st) HP) as Hd.
    destruct (drain (recorder st) (note36 st) (pending w)) as [[r n] e].
    cbn [fst snd] in He, Hd.
    destruct (pending_raises w).
    + unfold on_processing_error. destruct (port st); cbn; [| assumption].
      apply Forall_app. split; [assumption | repeat constructor; assumption].
    + destruct (buffer r).
      * cbn. rewrite app_nil_r. assumption.
      * destruct (t_gt _ _); [| cbn; rewrite app_nil_r; assumption].
        pose proof (Q_save (log r LTimeoutReached) false
                      (P_log r LTimeoutReached Hd)) as Hs.
        destruct (save_buffer_to_file (log r LTimeoutReached) false).
        cbn in *. apply Forall_app. split; assumption.
Qed.

Lemma inner_loop_emits (ticks : list (Tick T)) :
  forall st : LoopState T,
    P (recorder st) -> Forall Q (snd (fst (inner_loop st ticks))).
Proof.
  induction ticks as [| w later IH]; intros st HP.
  - constructor.
  - cbn [inner_loop].
    pose proof (inner_iteration_emits st w HP) as He.
    pose proof (inner_iteration_preserves P P_log P_clear P_record P_count
                  st w HP) as Hw.
    destruct (inner_iteration st w) as [[st1 e1] [|]]; cbn [fst snd] in He, Hw.
    + pose proof (IH st1 Hw) as Hl.
      destruct (inner_loop st1 later) as [[st2 e2] c2]. cbn [fst snd] in *.
      apply Forall_app. split; assumption.
    + assumption.
Qed.

Lemma wait_loop_only_sleeps (polls : list (list string)) :
  forall (self after : MidiRecorder T) (port_name : string)
         (sleeps : list effect),
    wait_loop MIDI_PORT_NAME self polls = Some (after, port_name, sleeps) ->
    Forall (fun e => e = SleepReconnect) sleeps.
Proof.
  induction polls as [| inputs later IH]; intros self after port_name sleeps E.
  - discriminate.
  - cbn [wait_loop] in E.
    assert (Hlater : after_sleep (wait_loop MIDI_PORT_NAME self later) =
                     Some (after, port_name, sleeps) ->
                     Forall (fun e => e = SleepReconnect) sleeps).
    { unfold after_sleep.
      destruct (wait_loop MIDI_PORT_NAME self later) as [[[r p] e] |] eqn:El;
        [| discriminate].
      intros E0. injection E0 as _ _ <-.
      constructor; [reflexivity | eapply IH; eassumption]. }
    destruct (find_midi_input MIDI_PORT_NAME inputs) as [found |].
    + destruct (truthy (Some found)).
      * injection E as _ _ <-. constructor.
      * now apply Hlater.
    + now apply Hlater.
Qed.

Lemma open_midi_input_only_sleeps (self after : MidiRecorder T)
    (d : Discovery) (res : result string) (sleeps : list effect) :
  open_midi_input MIDI_PORT_NAME self d = Some (after, res, sleeps) ->
  Forall (fun e => e = SleepReconnect) sleeps.
Proof.
  unfold open_midi_input, wait_for_midi_connection. intros E.
  match type of E with
  | match ?found with _ => _ end = _ =>
      assert (Hfound : forall self0 port_name sleeps0,
                 found = Some (self0, port_name, sleeps0) ->
                 Forall (fun e => e = SleepReconnect) sleeps0);
      [| destruct found as [[[self0 port_name] sleeps0] |]; [| discriminate];
         specialize (Hfound self0 port_name sleeps0 eq_refl) ]
  end.
  - intros self0 port_name sleeps0 E0.
    destruct (find_midi_input MIDI_PORT_NAME (inputs_now d)) as [found |].
    + destruct (truthy (Some found)).
      * injection E0 as _ _ <-. constructor.
      * eapply wait_loop_only_sleeps; exact E0.
    + eapply wait_loop_only_sleeps; exact E0.
  - destruct (open_succeeds d); injection E as _ _ <-; exact Hfound.
Qed.

Lemma outer_iteration_emits (st st' : LoopState T) (d : Discovery)
    (ticks : list (Tick T)) (effs : list effect) (c : control) :
  outer_iteration MIDI_PORT_NAME st d ticks = Some (st', effs, c) ->
  P (recorder st) -> Forall Q effs.
Proof.
  unfold outer_iteration, reconnect. intros E HP.
  destruct (port st).
  - injection E as E.
    pose proof (inner_loop_emits ticks (mkLoop (recorder st) (Some s) 0) HP) as Hl.
    rewrite E in Hl. exact Hl.
  - destruct (open_midi_input MIDI_PORT_NAME (recorder st) d)
      as [[[after [handle |]] sleeps] |] eqn:Eopen; [| | discriminate].
    + pose proof (open_midi_input_preserves MIDI_PORT_NAME P P_log P_select
                    _ _ _ _ _ Eopen HP) as Ho.
      pose proof (open_midi_input_only_sleeps _ _ _ _ _ Eopen) as Hs.
      pose proof (inner_loop_emits ticks
                    (mkLoop (log after LConnected) (Some handle) 0)
                    (P_log _ _ Ho)) as Hl.
      destruct (inner_loop (mkLoop (log after LConnected) (Some handle) 0) ticks)
        as [[st1 e1] c1].
      injection E as _ <- _. apply Forall_app. split; [| exact Hl].
      eapply Forall_impl; [| exact Hs]. intros e ->. exact Q_sleep.
    + pose proof (open_midi_input_only_sleeps _ _ _ _ _ Eopen) as Hs.
      injection E as _ <- _. apply Forall_app. split.
      * eapply Forall_impl; [| exact Hs]. intros e ->. exact Q_sleep.
      * repeat constructor. assumption.
Qed.

End Emission.

(** ** Invariants of the session *)

Section SessionInvariants.

Context {T : Type} `{TimeOps T}.

Variable MIDI_PORT_NAME : option string.

Lemma note_starts_app (front back : list (Message * T)) :
  note_starts (front ++ back) = note_starts front + note_starts back.
Proof.
  unfold note_starts. rewrite filter_app, length_app. lia.
Qed.

Lemma note_starts_single (msg : Message) (now : T) :
  note_starts [(msg, now)] = if is_note_start msg then 1 else 0.
Proof.
  unfold note_starts. cbn [filter fst].
  destruct (is_note_start msg); reflexivity.
Qed.

Lemma counted_record (self : MidiRecorder T) (msg : Message) (now : T) :
  counted self -> is_note_start msg = false ->
  counted (record_message self msg now).
Proof.
  unfold counted. cbn [record_message buffer note_on_count].
  intros Hc Hns. rewrite note_starts_app, note_starts_single, Hc, Hns. lia.
Qed.

Lemma counted_count (self : MidiRecorder T) (msg : Message) (now : T) :
  counted self -> is_note_start msg = true ->
  counted (count_note_on (record_message self msg now)).
Proof.
  unfold counted. cbn [count_note_on record_message buffer note_on_count].
  intros Hc Hns. rewrite note_starts_app, note_starts_single, Hc, Hns. lia.
Qed.

(** X1. [note_on_count] is kept equal to the number of note-starts in the
    buffer: it holds of a new recorder and every iteration of the outer
    loop of [run_with_reconnect] (discovery, the inner loop with its
    drains, forced saves, timeout saves and failures) keeps it. *)
Theorem note_on_count_counts_buffer :
  (forall now : T, counted (init now)) /\
  (forall (st st' : LoopState T) (d : Discovery) (ticks : list (Tick T))
          (effs : list effect) (c : control),
     counted (recorder st) ->
     outer_iteration MIDI_PORT_NAME st d ticks = Some (st', effs, c) ->
     counted (recorder st')).
Proof.
  split.
  - intros now. reflexivity.
  - intros st st' d ticks effs c Hc E.
    apply (outer_iteration_preserves MIDI_PORT_NAME counted)
      with (st := st) (d := d) (ticks := ticks) (effs := effs) (c := c);
      try assumption.
    + intros self line Hs. exact Hs.
    + intros self Hs. reflexivity.
    + intros self msg now Hs _ Hns. now apply counted_record.
    + intros self msg now Hs _ Hns. now apply counted_count.
    + intros self name Hs. exact Hs.
Qed.

Lemma stamped_record (self : MidiRecorder T) (msg : Message) (now : T) :
  stamped (record_message self msg now).
Proof.
  intros front m t E. cbn [record_message buffer last_input_time] in *.
  apply app_inj_tail in E as [_ E]. now injection E.
Qed.

(** X2. Whenever the buffer is not empty, [last_input_time] is the timestamp
    of its newest entry, so the idle timeout is measured from the last
    buffered message: true of a new recorder and kept by every iteration
    of the outer loop. *)
Theorem last_input_time_stamps_newest :
  (forall now : T, stamped (init now)) /\
  (forall (st st' : LoopState T) (d : Discovery) (ticks : list (Tick T))
          (effs : list effect) (c : control),
     stamped (recorder st) ->
     outer_iteration MIDI_PORT_NAME st d ticks = Some (st', effs, c) ->
     stamped (recorder st')).
Proof.
  split.
  - intros now front msg t E. cbn in E.
    exfalso. exact (app_cons_not_nil _ _ _ E).
  - intros st st' d ticks effs c Hc E.
    apply (outer_iteration_preserves MIDI_PORT_NAME stamped)
      with (st := st) (d := d) (ticks := ticks) (effs := effs) (c := c);
      try assumption.
    + intros self line Hs. exact Hs.
    + intros self Hs front msg t E0. cbn in E0.
      exfalso. exact (app_cons_not_nil _ _ _ E0).
    + intros self msg now _ _ _. apply stamped_record.
    + intros self msg now _ _ _. exact (stamped_record self msg now).
    + intros self name Hs. exact Hs.
Qed.

(** X3. The log is cumulative: an iteration of the outer loop only appends
    lines to [log_output]. *)
Theorem log_output_only_grows (st st' : LoopState T) (d : Discovery)
    (ticks : list (Tick T)) (effs : list effect) (c : control) :
  outer_iteration MIDI_PORT_NAME st d ticks = Some (st', effs, c) ->
  exists added,
    log_output (recorder st') = log_output (recorder st) ++ added.
Proof.
  intros E.
  apply (outer_iteration_preserves MIDI_PORT_NAME
           (fun self => exists added,
                log_output self = log_output (recorder st) ++ added))
    with (st := st) (d := d) (ticks := ticks) (effs := effs) (c := c);
    try assumption.
  - intros self line [added Hs]. exists (added ++ [line]).
    cbn. rewrite Hs. now rewrite app_assoc.
  - intros self Hs. exact Hs.
  - intros self msg now Hs _ _. exact Hs.
  - intros self msg now Hs _ _. exact Hs.
  - intros self name Hs. exact Hs.
  - exists []. now rewrite app_nil_r.
Qed.

End SessionInvariants.

(** ** The files that are written *)

Section WrittenFiles.

Context {T : Type} `{TimeOps T}.

Variable MIDI_PORT_NAME : option string.

Lemma quantize_note_starts (buf : list (Message * T)) :
  forall last_time,
    track_note_starts (quantize last_time buf) = note_starts buf.
Proof.
  unfold track_note_starts, note_starts.
  induction buf as [| [msg abs_time] rest IH]; intros last_time.
  - reflexivity.
  - cbn [quantize filter fst].
    change (is_note_start (copy msg _)) with (is_note_start msg).
    destruct (is_note_start msg); cbn [List.length]; rewrite ?Nat2Z.inj_succ;
      now rewrite IH.
Qed.

Lemma quantize_no_realtime (buf : list (Message * T)) :
  forall last_time,
    forallb (fun msg => negb (is_realtime msg)) (quantize last_time buf) =
    forallb (fun p => negb (is_realtime (fst p))) buf.
Proof.
  induction buf as [| [msg abs_time] rest IH]; intros last_time.
  - reflexivity.
  - cbn [quantize forallb fst].
    change (is_realtime (copy msg _)) with (is_realtime msg).
    now rewrite IH.
Qed.

(** X4. When the counter agrees with the buffer, the track handed to the
    serializer holds as many note-starts as the line "Saved .. with N
    notes" announces: at least 4, and at least 10 when the save is not
    forced. *)
Theorem saved_file_has_logged_notes (self : MidiRecorder T) (force : bool)
    (track : list Message) :
  counted self ->
  snd (save_buffer_to_file self force) = [MidSave track] ->
  track_note_starts track = note_on_count self /\
  log_output (fst (save_buffer_to_file self force)) =
    log_output self ++ [LSaved (track_note_starts track)] /\
  4 <= track_note_starts track /\
  (force = false -> 10 <= track_note_starts track).
Proof.
  unfold counted, save_buffer_to_file, MIN_NOTES. intros Hc.
  destruct (Z.ltb_spec (note_on_count self) 10) as [Hlt | Hge];
    destruct force; cbn [negb andb];
    try (intros E; discriminate E);
    destruct (Z.leb_spec (note_on_count self) 3) as [Hle | Hgt];
    try (intros E; discriminate E);
    cbn [fst snd]; intros E; injection E as <-;
    unfold build_track; rewrite quantize_note_starts, <- Hc;
    repeat split; try lia; intros E; discriminate E.
Qed.

Lemma clean_record (self : MidiRecorder T) (msg : Message) (now : T) :
  clean self -> is_realtime msg = false ->
  clean (record_message self msg now).
Proof.
  unfold clean. cbn [record_message buffer]. intros Hc Hrt.
  rewrite forallb_app, Hc. cbn. now rewrite Hrt.
Qed.

Lemma save_emits_good_file (self : MidiRecorder T) (force : bool) :
  counted self /\ clean self ->
  Forall good_file (snd (save_buffer_to_file self force)).
Proof.
  intros [Hc Hk]. unfold save_buffer_to_file.
  destruct (_ && _); [constructor |].
  destruct (Z.leb_spec (note_on_count self) 3) as [Hle | Hgt]; [constructor |].
  cbn [snd]. constructor; [| constructor].
  unfold good_file, build_track.
  rewrite quantize_note_starts, quantize_no_realtime.
  unfold counted in Hc. split; [lia | exact Hk].
Qed.

(** X5. Starting from a recorder whose counter agrees with its buffer and
    whose buffer holds no realtime message (a new recorder is one), every
    call of the serializer during an iteration of the outer loop is for a
    track with at least four note-starts and without realtime messages. *)
Theorem written_files_hold_notes (st st' : LoopState T) (d : Discovery)
    (ticks : list (Tick T)) (effs : list effect) (c : control) :
  counted (recorder st) ->
  clean (recorder st) ->
  outer_iteration MIDI_PORT_NAME st d ticks = Some (st', effs, c) ->
  Forall good_file effs.
Proof.
  intros Hc Hk E.
  apply (outer_iteration_emits MIDI_PORT_NAME
           (fun self => counted self /\ clean self) good_file)
    with (st := st) (st' := st') (d := d) (ticks := ticks) (c := c);
    try assumption; try exact I; try (split; assumption).
  - intros self line Hs. exact Hs.
  - intros self _. split; reflexivity.
  - intros self msg now [Hs1 Hs2] Hrt Hns. split.
    + now apply counted_record.
    + now apply clean_record.
  - intros self msg now [Hs1 Hs2] Hrt Hns. split.
    + now apply counted_count.
    + exact (clean_record self msg now Hs2 Hrt).
  - intros self name Hs. exact Hs.
  - intros self force Hs. now apply save_emits_good_file.
Qed.

End WrittenFiles.

(** ** The inner loop *)

Section InnerLoop.

Context {T : Type} `{TimeOps T}.

(** X6. Realtime messages leave no trace: a drain of realtime messages only
    changes neither the recorder (buffer, counter, [last_input_time],
    log) nor [note36], and emits nothing. *)
Theorem realtime_messages_are_dropped (pending : list (Message * T)) :
  forall (self : MidiRecorder T) (n36 : Z),
    forallb (fun p => is_realtime (fst p)) pending = true ->
    drain self n36 pending = (self, n36, []).
Proof.
  induction pending as [| [msg now] rest IH]; intros self n36 Hall.
  - reflexivity.
  - cbn [forallb fst] in Hall. apply andb_prop in Hall as [Hrt Hrest].
    cbn [drain]. unfold process_message. rewrite Hrt. cbn [negb].
    now rewrite (IH self n36 Hrest).
Qed.

Lemma count_PortClose_app (front back : list effect) :
  count_PortClose (front ++ back) =
  (count_PortClose front + count_PortClose back)%nat.
Proof.
  unfold count_PortClose. now rewrite filter_app, length_app.
Qed.

Lemma count_PortClose_none (effs : list effect) :
  Forall (fun e => e <> PortClose) effs -> count_PortClose effs = 0%nat.
Proof.
  induction 1 as [| e rest He _ IH]; [reflexivity |].
  unfold count_PortClose in *. cbn [filter].
  destruct e; try assumption. contradiction.
Qed.

Lemma save_never_closes (self : MidiRecorder T) (force : bool) :
  Forall (fun e => e <> PortClose) (snd (save_buffer_to_file self force)).
Proof.
  destruct (save_cases self force) as [E | [E | E]]; rewrite E;
    repeat constructor; discriminate.
Qed.

Lemma drain_never_closes (self : MidiRecorder T) (n36 : Z)
    (pending : list (Message * T)) :
  count_PortClose (snd (drain self n36 pending)) = 0%nat.
Proof.
  apply count_PortClose_none.
  apply (drain_emits (fun _ => True) (fun e => e <> PortClose));
    try (intros; exact I).
  - intros s f _. apply save_never_closes.
  - discriminate.
Qed.

Lemma inner_iteration_closes_on_exit (st st' : LoopState T) (w : Tick T)
    (handle : string) (effs : list effect) (c : control) :
  port st = Some handle ->
  inner_iteration st w = (st', effs, c) ->
  match c with
  | Continue => port st' = Some handle /\ count_PortClose effs = 0%nat
  | Break =>
      port st' = None /\
      exists before,
        effs = before ++ [PortClose] /\ count_PortClose before = 0%nat
  end.
Proof.
  intros Hport. unfold inner_iteration. rewrite Hport.
  destruct (negb (is_port_still_available _ _)).
  - intros E. injection E as <- <- <-. split; [reflexivity |].
    exists []. split; reflexivity.
  - pose proof (drain_never_closes (recorder st) (note36 st) (pending w)) as Hd.
    destruct (drain (recorder st) (note36 st) (pending w)) as [[r n] e].
    cbn [snd] in Hd.
    destruct (pending_raises w).
    + unfold on_processing_error. intros E. injection E as <- <- <-.
      split; [reflexivity |]. exists e. split; [reflexivity | exact Hd].
    + assert (Hsave :
        forall r' saved,
          match buffer r with
          | _ :: _ =>
              if t_gt (t_sub (now_at_check w) (last_input_time r))
                      NO_INPUT_TIMEOUT
              then save_buffer_to_file (log r LTimeoutReached) false
              else (r, [])
          | [] => (r, [])
          end = (r', saved) ->
          count_PortClose saved = 0%nat).
      { intros r' saved E.
        destruct (buffer r); [injection E as _ <-; reflexivity |].
        destruct (t_gt _ _); [| injection E as _ <-; reflexivity].
        pose proof (save_never_closes (log r LTimeoutReached) false) as Hs.
        rewrite E in Hs. now apply count_PortClose_none. }
      destruct (match buffer r with [] => _ | _ :: _ => _ end) as [r' saved].
      intros E. injection E as <- <- <-.
      split; [reflexivity |].
      rewrite count_PortClose_app, Hd, (Hsave r' saved eq_refl). reflexivity.
Qed.

(** X7. The inner loop closes the port it runs on exactly once, as the last
    thing it does before it leaves, and leaves with [port = None]; while
    it keeps running it does not close the port and [port] stays the open
    handle. *)
Theorem inner_loop_closes_port_on_exit (ticks : list (Tick T)) :
  forall (st st' : LoopState T) (handle : string) (effs : list effect)
         (c : control),
    port st = Some handle ->
    inner_loop st ticks = (st', effs, c) ->
    match c with
    | Continue => port st' = Some handle /\ count_PortClose effs = 0%nat
    | Break =>
        port st' = None /\
        exists before,
          effs = before ++ [PortClose] /\ count_PortClose before = 0%nat
    end.
Proof.
  induction ticks as [| w later IH]; intros st st' handle effs c Hport E.
  - injection E as <- <- <-. split; [assumption | reflexivity].
  - cbn [inner_loop] in E.
    destruct (inner_iteration st w) as [[st1 e1] c1] eqn:Ew.
    pose proof (inner_iteration_closes_on_exit st st1 w handle e1 c1 Hport Ew)
      as Hw.
    destruct c1.
    + destruct Hw as [Hport1 Hnone].
      destruct (inner_loop st1 later) as [[st2 e2] c2] eqn:El.
      injection E as <- <- <-.
      pose proof (IH st1 st2 handle e2 c2 Hport1 El) as Hl.
      destruct c2.
      * destruct Hl as [Hport2 Hnone2]. split; [assumption |].
        rewrite count_PortClose_app, Hnone, Hnone2. reflexivity.
      * destruct Hl as [Hport2 [before [-> Hnone2]]]. split; [assumption |].
        exists (e1 ++ before). split; [now rewrite app_assoc |].
        rewrite count_PortClose_app, Hnone, Hnone2. reflexivity.
    + injection E as <- <- <-. exact Hw.
Qed.

(** X8. The idle timeout.  On an iteration of a live connection with nothing
    pending: an empty buffer is left alone however long the silence; a
    non-empty buffer whose last input is more than [NO_INPUT_TIMEOUT]
    seconds old is saved without force, so a take of fewer than 10
    note-starts is dropped and a longer one is handed to the serializer;
    either way the session is empty afterwards and the loop goes on. *)
Theorem idle_timeout_saves_unforced (st : LoopState T) (w : Tick T) :
  is_port_still_available (recorder st) (available_ports w) = true ->
  pending w = [] ->
  pending_raises w = false ->
  snd (inner_iteration st w) = Continue /\
  (buffer (recorder st) = [] -> inner_iteration st w = (st, [], Continue)) /\
  (buffer (recorder st) <> [] ->
   t_gt (t_sub (now_at_check w) (last_input_time (recorder st)))
        NO_INPUT_TIMEOUT = true ->
   buffer (recorder (fst (fst (inner_iteration st w)))) = [] /\
   note_on_count (recorder (fst (fst (inner_iteration st w)))) = 0 /\
   snd (fst (inner_iteration st w)) =
     if note_on_count (recorder st) <? 10 then []
     else [MidSave (build_track (buffer (recorder st)))]).
Proof.
  intros Hlive Hpending Hraise.
  unfold inner_iteration.
  rewrite Hlive, Hpending, Hraise. cbn [negb drain].
  destruct st as [self p n]. cbn [recorder port note36].
  destruct (buffer self) as [| entry rest] eqn:Hbuf.
  - repeat split; intros; try reflexivity; congruence.
  - destruct (t_gt _ _).
    + destruct (save_buffer_to_file (log self LTimeoutReached) false)
        as [r saved] eqn:Es.
      cbn [fst snd recorder].
      split; [reflexivity |]. split; [intros E; discriminate E |].
      intros _ _.
      pose proof (save_leaves_session_empty (log self LTimeoutReached) false)
        as [Hb Hn].
      rewrite Es in Hb, Hn. cbn [fst] in Hb, Hn.
      split; [assumption |]. split; [assumption |].
      assert (saved = snd (save_buffer_to_file (log self LTimeoutReached) false))
        as -> by now rewrite Es.
      unfold save_buffer_to_file, MIN_NOTES.
      cbn [log note_on_count buffer negb].
      rewrite andb_true_r.
      destruct (Z.ltb_spec (note_on_count self) 10); [reflexivity |].
      destruct (Z.leb_spec (note_on_count self) 3); [lia |].
      cbn [snd]. now rewrite Hbuf.
    + cbn [fst snd].
      split; [reflexivity |]. split; [intros E; discriminate E |].
      intros _ E. discriminate E.
Qed.

End InnerLoop.

(** ** Discovery and connection *)

Section Connecting.

Context {T : Type} `{TimeOps T}.

Variable MIDI_PORT_NAME : option string.

Lemma truthy_nonempty (name : string) :
  truthy (Some name) = true -> name <> EmptyString.
Proof.
  cbn. intros E ->. discriminate E.
Qed.

Lemma find_midi_input_enumerated (inputs : list string) (name : string) :
  find_midi_input MIDI_PORT_NAME inputs = Some name ->
  In name inputs /\
  (forall preferred,
     MIDI_PORT_NAME = Some preferred -> preferred <> EmptyString ->
     name = preferred).
Proof.
  unfold find_midi_input.
  destruct MIDI_PORT_NAME as [configured |].
  - destruct (truthy (Some configured)) eqn:Etr.
    + destruct (name_in configured inputs) eqn:Ein; [| discriminate].
      intros E. injection E as <-. split.
      * now apply name_in_In.
      * intros preferred E _. now injection E.
    + destruct inputs as [| first rest]; [discriminate |].
      intros E. injection E as <-. split; [now left |].
      intros preferred E Hne. injection E as ->.
      rewrite (truthy_Some preferred Hne) in Etr. discriminate.
  - cbn. destruct inputs as [| first rest]; [discriminate |].
    intros E. injection E as <-. split; [now left |].
    intros preferred E. discriminate E.
Qed.

(** A wait that returns has seen a stretch of fruitless enumerations,
    paused after each, and then a fruitful one. *)
Lemma wait_loop_split (polls : list (list string)) :
  forall (self after : MidiRecorder T) (name : string) (sleeps : list effect),
    wait_loop MIDI_PORT_NAME self polls = Some (after, name, sleeps) ->
    exists fruitless inputs later,
      polls = fruitless ++ inputs :: later /\
      Forall (fun i => truthy (find_midi_input MIDI_PORT_NAME i) = false)
             fruitless /\
      find_midi_input MIDI_PORT_NAME inputs = Some name /\
      name <> EmptyString /\
      sleeps = repeat SleepReconnect (List.length fruitless) /\
      after = log self (LDeviceFound name).
Proof.
  induction polls as [| inputs later IH]; intros self after name sleeps E.
  - discriminate.
  - cbn [wait_loop] in E.
    assert (Hlater :
      truthy (find_midi_input MIDI_PORT_NAME inputs) = false ->
      after_sleep (wait_loop MIDI_PORT_NAME self later) =
        Some (after, name, sleeps) ->
      exists fruitless inputs0 later0,
        inputs :: later = fruitless ++ inputs0 :: later0 /\
        Forall (fun i => truthy (find_midi_input MIDI_PORT_NAME i) = false)
               fruitless /\
        find_midi_input MIDI_PORT_NAME inputs0 = Some name /\
        name <> EmptyString /\
        sleeps = repeat SleepReconnect (List.length fruitless) /\
        after = log self (LDeviceFound name)).
    { intros Hnone. unfold after_sleep.
      destruct (wait_loop MIDI_PORT_NAME self later) as [[[r p] e] |] eqn:El;
        [| discriminate].
      intros E0. injection E0 as <- <- <-.
      destruct (IH _ _ _ _ El)
        as (fruitless & inputs0 & later0 & -> & Hall & Hf & Hne & -> & ->).
      exists (inputs :: fruitless), inputs0, later0.
      repeat split; try assumption. constructor; assumption. }
    destruct (find_midi_input MIDI_PORT_NAME inputs) as [found |] eqn:Ef.
    + destruct (truthy (Some found)) eqn:Etr.
      * injection E as <- <- <-.
        exists [], inputs, later. repeat split; try assumption.
        -- constructor.
        -- now apply truthy_nonempty.
      * now apply Hlater.
    + now apply Hlater.
Qed.

(** X9. [wait_for_midi_connection] polls until an enumeration yields a
    device: while every enumeration is fruitless (empty, the preferred
    name absent, or a first name that is the empty string) it keeps
    waiting; the first fruitful one gives the result, whatever comes
    later, with the two log lines of the wait and one pause of
    [RECONNECT_INTERVAL] for each fruitless enumeration. *)
Theorem wait_returns_first_device (self : MidiRecorder T)
    (fruitless : list (list string)) :
  Forall (fun inputs => truthy (find_midi_input MIDI_PORT_NAME inputs) = false)
         fruitless ->
  wait_for_midi_connection MIDI_PORT_NAME self fruitless = None /\
  (forall inputs later name,
     find_midi_input MIDI_PORT_NAME inputs = Some name ->
     name <> EmptyString ->
     wait_for_midi_connection MIDI_PORT_NAME self (fruitless ++ inputs :: later) =
       Some (log (log self LWaitingForDevice) (LDeviceFound name), name,
             repeat SleepReconnect (List.length fruitless))).
Proof.
  unfold wait_for_midi_connection.
  generalize (log self LWaitingForDevice) as waiting.
  induction 1 as [| inputs0 rest Hnone _ IH]; intros.
  - split; [reflexivity |].
    intros inputs later name Ef Hne. cbn [List.app wait_loop].
    now rewrite Ef, (truthy_Some name Hne).
  - assert (Hskip : forall polls,
              wait_loop MIDI_PORT_NAME waiting (inputs0 :: polls) =
              after_sleep (wait_loop MIDI_PORT_NAME waiting polls)).
    { intros polls. cbn [wait_loop].
      destruct (find_midi_input MIDI_PORT_NAME inputs0) as [found |];
        [| reflexivity].
      now rewrite Hnone. }
    split.
    + rewrite Hskip, (proj1 IH). reflexivity.
    + intros inputs later name Ef Hne.
      rewrite <- app_comm_cons, Hskip, (proj2 IH inputs later name Ef Hne).
      reflexivity.
Qed.

(** The enumeration and the pauses behind a selected name. *)
Lemma open_midi_input_found (self after : MidiRecorder T) (d : Discovery)
    (res : result string) (sleeps : list effect) :
  open_midi_input MIDI_PORT_NAME self d = Some (after, res, sleeps) ->
  exists name,
    name <> EmptyString /\
    connected_port_name after = Some name /\
    res = (if open_succeeds d then Returned _ name else Raised _) /\
    ((find_midi_input MIDI_PORT_NAME (inputs_now d) = Some name /\
      sleeps = []) \/
     (truthy (find_midi_input MIDI_PORT_NAME (inputs_now d)) = false /\
      exists fruitless inputs later,
        inputs_later d = fruitless ++ inputs :: later /\
        Forall (fun i => truthy (find_midi_input MIDI_PORT_NAME i) = false)
               fruitless /\
        find_midi_input MIDI_PORT_NAME inputs = Some name /\
        sleeps = repeat SleepReconnect (List.length fruitless))).
Proof.
  unfold open_midi_input, wait_for_midi_connection. intros E.
  match type of E with
  | match ?found with _ => _ end = _ =>
      assert (Hfound : forall self0 name sleeps0,
        found = Some (self0, name, sleeps0) ->
        name <> EmptyString /\
        ((find_midi_input MIDI_PORT_NAME (inputs_now d) = Some name /\
          sleeps0 = []) \/
         (truthy (find_midi_input MIDI_PORT_NAME (inputs_now d)) = false /\
          exists fruitless inputs later,
            inputs_later d = fruitless ++ inputs :: later /\
            Forall (fun i => truthy (find_midi_input MIDI_PORT_NAME i) = false)
                   fruitless /\
            find_midi_input MIDI_PORT_NAME inputs = Some name /\
            sleeps0 = repeat SleepReconnect (List.length fruitless))));
      [| destruct found as [[[self0 name] sleeps0] |]; [| discriminate];
         specialize (Hfound self0 name sleeps0 eq_refl) ]
  end.
  - intros self0 name sleeps0 E0.
    assert (Hwait :
      truthy (find_midi_input MIDI_PORT_NAME (inputs_now d)) = false ->
      wait_loop MIDI_PORT_NAME (log self LWaitingForDevice) (inputs_later d) =
        Some (self0, name, sleeps0) ->
      name <> EmptyString /\
      ((find_midi_input MIDI_PORT_NAME (inputs_now d) = Some name /\
        sleeps0 = []) \/
       (truthy (find_midi_input MIDI_PORT_NAME (inputs_now d)) = false /\
        exists fruitless inputs later,
          inputs_later d = fruitless ++ inputs :: later /\
          Forall (fun i => truthy (find_midi_input MIDI_PORT_NAME i) = false)
                 fruitless /\
          find_midi_input MIDI_PORT_NAME inputs = Some name /\
          sleeps0 = repeat SleepReconnect (List.length fruitless)))).
    { intros Hnone Ew.
      destruct (wait_loop_split _ _ _ _ _ Ew)
        as (fruitless & inputs & later & Hsplit & Hall & Hf & Hne & Hs & _).
      split; [assumption |]. right. split; [assumption |].
      exists fruitless, inputs, later. repeat split; assumption. }
    destruct (find_midi_input MIDI_PORT_NAME (inputs_now d)) as [found |] eqn:Ef.
    + destruct (truthy (Some found)) eqn:Etr.
      * injection E0 as _ <- <-.
        split; [now apply truthy_nonempty |]. left. split; reflexivity.
      * now apply Hwait.
    + now apply Hwait.
  - destruct Hfound as [Hne Hcases]. exists name.
    destruct (open_succeeds d); injection E as <- <- <-;
      repeat split; assumption.
Qed.

(** X10. Whenever [open_midi_input] comes back, by returning a handle or by
    raising, it has selected a non-empty name that one of the
    enumerations it saw contains (the preferred name when a non-empty one
    is configured), has stored it in [connected_port_name] before the
    attempt, has done nothing on the way but pause, and has left the
    buffer and the counter alone. *)
Theorem open_midi_input_selects_enumerated_name (self after : MidiRecorder T)
    (d : Discovery) (res : result string) (sleeps : list effect) :
  open_midi_input MIDI_PORT_NAME self d = Some (after, res, sleeps) ->
  exists name inputs,
    name <> EmptyString /\
    In inputs (inputs_now d :: inputs_later d) /\
    In name inputs /\
    (forall preferred,
       MIDI_PORT_NAME = Some preferred -> preferred <> EmptyString ->
       name = preferred) /\
    connected_port_name after = Some name /\
    res = (if open_succeeds d then Returned _ name else Raised _) /\
    buffer after = buffer self /\
    note_on_count after = note_on_count self /\
    Forall (fun e => e = SleepReconnect) sleeps.
Proof.
  intros E.
  assert (Hkept : buffer after = buffer self /\
                  note_on_count after = note_on_count self).
  { exact (open_midi_input_preserves MIDI_PORT_NAME
             (fun r => buffer r = buffer self /\
                       note_on_count r = note_on_count self)
             (fun r line Hr => Hr) (fun r name Hr => Hr)
             self after d res sleeps E (conj eq_refl eq_refl)). }
  pose proof (open_midi_input_only_sleeps MIDI_PORT_NAME _ _ _ _ _ E) as Hsleeps.
  destruct (open_midi_input_found _ _ _ _ _ E)
    as (name & Hne & Hconn & Hres & Hcases).
  assert (Hwhere : exists inputs,
             In inputs (inputs_now d :: inputs_later d) /\
             find_midi_input MIDI_PORT_NAME inputs = Some name).
  { destruct Hcases as [[Hf _] | [_ (fruitless & inputs & later & Hsplit & _ & Hf & _)]].
    - exists (inputs_now d). split; [now left | assumption].
    - exists inputs. split; [| assumption].
      right. rewrite Hsplit. apply in_or_app. right. now left. }
  destruct Hwhere as [inputs [Hin Hf]].
  destruct (find_midi_input_enumerated inputs name Hf) as [Hmem Hpref].
  exists name, inputs.
  repeat split; try assumption; apply Hkept.
Qed.

(** X11. When the port cannot be opened, the iteration of the outer loop
    ends without a port and with the session (buffer, counter, time of
    the last input) as before; all it has done is pause: once for each
    fruitless enumeration of the wait, and once more, for
    [RECONNECT_INTERVAL], in the handler. *)
Theorem failed_open_keeps_session (st st' : LoopState T) (d : Discovery)
    (ticks : list (Tick T)) (effs : list effect) (c : control) :
  port st = None ->
  open_succeeds d = false ->
  outer_iteration MIDI_PORT_NAME st d ticks = Some (st', effs, c) ->
  c = Break /\ port st' = None /\
  buffer (recorder st') = buffer (recorder st) /\
  note_on_count (recorder st') = note_on_count (recorder st) /\
  last_input_time (recorder st') = last_input_time (recorder st) /\
  (truthy (find_midi_input MIDI_PORT_NAME (inputs_now d)) = true ->
   effs = [SleepReconnect]) /\
  (truthy (find_midi_input MIDI_PORT_NAME (inputs_now d)) = false ->
   exists fruitless inputs later,
     inputs_later d = fruitless ++ inputs :: later /\
     Forall (fun i => truthy (find_midi_input MIDI_PORT_NAME i) = false)
            fruitless /\
     truthy (find_midi_input MIDI_PORT_NAME inputs) = true /\
     effs = repeat SleepReconnect (List.length fruitless) ++ [SleepReconnect]).
Proof.
  intros Hport Hfail. unfold outer_iteration, reconnect. rewrite Hport.
  destruct (open_midi_input MIDI_PORT_NAME (recorder st) d)
    as [[[after res] sleeps] |] eqn:Eopen; [| discriminate].
  destruct (open_midi_input_found _ _ _ _ _ Eopen)
    as (name & Hne & _ & Hres & Hcases).
  rewrite Hfail in Hres. subst res.
  intros E. injection E as <- <- <-.
  assert (Hkept : buffer after = buffer (recorder st) /\
                  note_on_count after = note_on_count (recorder st) /\
                  last_input_time after = last_input_time (recorder st)).
  { exact (open_midi_input_preserves MIDI_PORT_NAME
             (fun r => buffer r = buffer (recorder st) /\
                       note_on_count r = note_on_count (recorder st) /\
                       last_input_time r = last_input_time (recorder st))
             (fun r line Hr => Hr) (fun r name Hr => Hr)
             (recorder st) after d _ _ Eopen
             (conj eq_refl (conj eq_refl eq_refl))). }
  split; [reflexivity |]. split; [reflexivity |].
  split; [apply Hkept |]. split; [apply Hkept |]. split; [apply Hkept |].
  split.
  - intros Hfirst.
    destruct Hcases as [[_ ->] | [Hnone _]]; [reflexivity | congruence].
  - intros Hnone.
    destruct Hcases as [[Hf _] | [_ (fruitless & inputs & later & Hsplit & Hall & Hf & ->)]].
    + rewrite Hf, (truthy_Some name Hne) in Hnone. discriminate.
    + exists fruitless, inputs, later.
      repeat split; try assumption.
      rewrite Hf. now apply truthy_Some.
Qed.

End Connecting.

(** ** Ticks and callbacks *)

Section Composition.

Context {T : Type} `{TimeOps T}.

Lemma availability_by_name (self other : MidiRecorder T)
    (available_ports : list string) :
  connected_port_name self = connected_port_name other ->
  is_port_still_available self available_ports =
  is_port_still_available other available_ports.
Proof.
  unfold is_port_still_available. now intros ->.
Qed.

(** X12. How the messages are spread over iterations does not matter: when
    the first of two iterations on a live connection neither fails nor
    reaches the idle timeout, the two iterations do what one iteration
    does that drains the messages of both. *)
Theorem two_iterations_as_one (st : LoopState T) (w1 w2 : Tick T) :
  is_port_still_available (recorder st) (available_ports w1) = true ->
  is_port_still_available (recorder st) (available_ports w2) = true ->
  pending_raises w1 = false ->
  (buffer (fst (fst (drain (recorder st) (note36 st) (pending w1)))) = [] \/
   t_gt (t_sub (now_at_check w1)
               (last_input_time
                  (fst (fst (drain (recorder st) (note36 st) (pending w1))))))
        NO_INPUT_TIMEOUT = false) ->
  inner_loop st [w1; w2] =
  inner_loop st [mkTick (available_ports w2) (pending w1 ++ pending w2)
                        (pending_raises w2) (now_at_check w2)].
Proof.
  intros Hlive Hlive2 Hraise Hquiet.
  pose proof (drain_keeps_connected_port_name (pending w1) (recorder st)
                (note36 st)) as Hname.
  pose proof (drain_app (pending w1) (pending w2) (recorder st) (note36 st))
    as Happ.
  destruct (drain (recorder st) (note36 st) (pending w1)) as [[r1 n1] e1]
    eqn:E1.
  cbn [fst snd] in Hquiet, Hname, Happ.
  assert (Efirst : inner_iteration st w1 = (mkLoop r1 (port st) n1, e1, Continue)).
  { unfold inner_iteration. rewrite Hlive, E1, Hraise. cbn [negb].
    destruct Hquiet as [Hempty | Hearly].
    - rewrite Hempty, app_nil_r. reflexivity.
    - rewrite Hearly. destruct (buffer r1); rewrite app_nil_r; reflexivity. }
  cbn [inner_loop]. rewrite Efirst.
  unfold inner_iteration.
  cbn [recorder port note36 available_ports pending pending_raises now_at_check].
  rewrite (availability_by_name r1 (recorder st) (available_ports w2) Hname).
  rewrite Hlive2. cbn [negb].
  rewrite Happ.
  destruct (drain r1 n1 (pending w2)) as [[r2 n2] e2]. cbn [fst snd].
  destruct (pending_raises w2).
  - unfold on_processing_error. destruct (port st); cbn;
      rewrite ?app_assoc, ?app_nil_r; reflexivity.
  - destruct (match buffer r2 with [] => _ | _ :: _ => _ end) as [r3 saved].
    cbn. rewrite !app_nil_r, !app_assoc. reflexivity.
Qed.

End Composition.

Section LogWindow.

Context {T : Type}.

Lemma tk_dispatch_keeps_one_window (desk : Desktop T) (cb : tk_callback)
    (lines : list log_line) :
  log_output (owner desk) = lines /\
  (gui_open (owner desk) = false /\ windows desk = [] \/
   gui_open (owner desk) = true /\ windows desk = [lines]) ->
  log_output (owner (tk_dispatch desk cb)) = lines /\
  (gui_open (owner (tk_dispatch desk cb)) = false /\
   windows (tk_dispatch desk cb) = [] \/
   gui_open (owner (tk_dispatch desk cb)) = true /\
   windows (tk_dispatch desk cb) = [lines]).
Proof.
  intros [Hlog [[Hclosed Hnone] | [Hopen Hone]]];
    destruct cb; unfold tk_dispatch, show_log_window, on_close.
  - rewrite Hclosed, Hnone. cbn. split; [assumption |].
    right. split; [reflexivity | now rewrite Hlog].
  - rewrite Hnone. split; [assumption |]. left. split; assumption.
  - rewrite Hopen. cbn. split; [assumption |]. right. split; assumption.
  - rewrite Hone. cbn. split; [assumption |]. left. split; reflexivity.
Qed.

Lemma tk_run_keeps_one_window (cbs : list tk_callback) :
  forall (desk : Desktop T) (lines : list log_line),
    log_output (owner desk) = lines /\
    (gui_open (owner desk) = false /\ windows desk = [] \/
     gui_open (owner desk) = true /\ windows desk = [lines]) ->
    log_output (owner (tk_run desk cbs)) = lines /\
    (gui_open (owner (tk_run desk cbs)) = false /\
     windows (tk_run desk cbs) = [] \/
     gui_open (owner (tk_run desk cbs)) = true /\
     windows (tk_run desk cbs) = [lines]).
Proof.
  unfold tk_run.
  induction cbs as [| cb rest IH]; intros desk lines Hstart.
  - exact Hstart.
  - cbn [fold_left]. apply IH.
    now apply tk_dispatch_keeps_one_window.
Qed.

(** X13. The guard on [gui_open]: whatever sequence of scheduled
    [show_log_window] calls and window dismissals the event loop runs,
    starting with no window, at most one log window is open, [gui_open]
    tells whether one is, and the window shows the whole of
    [log_output]. *)
Theorem at_most_one_log_window (cbs : list tk_callback) :
  forall desk : Desktop T,
    gui_open (owner desk) = false ->
    windows desk = [] ->
    (List.length (windows (tk_run desk cbs)) <= 1)%nat /\
    (gui_open (owner (tk_run desk cbs)) = true <->
     windows (tk_run desk cbs) <> []) /\
    (forall text,
       In text (windows (tk_run desk cbs)) ->
       text = log_output (owner desk)).
Proof.
  intros desk Hclosed Hnone.
  destruct (tk_run_keeps_one_window cbs desk (log_output (owner desk)))
    as [_ [[Hc Hw] | [Ho Hw]]].
  { split; [reflexivity |]. left. split; assumption. }
  - rewrite Hw, Hc. split; [cbn; lia |]. split.
    + split; [discriminate | congruence].
    + intros text [].
  - rewrite Hw, Ho. split; [cbn; lia |]. split.
    + split; [discriminate | reflexivity].
    + intros text [<- | []]. reflexivity.
Qed.

End LogWindow.

(** * The further properties on concrete runs *)

Lemma note_on_count_counts_buffer_witness :
  counted (recorder (landed first_session)).
Proof.
  apply (proj2 (note_on_count_counts_buffer None) at_start
           (landed first_session) plugged recital (emitted first_session)
           Continue).
  - reflexivity.
  - vm_compute. reflexivity.
Defined.

Lemma last_input_time_stamps_newest_witness :
  stamped (recorder (landed playing)).
Proof.
  apply (proj2 (last_input_time_stamps_newest None) at_start
           (landed playing) plugged
           [mkTick [piano] (melody 12 1%Q) false 7%Q] (emitted playing)
           Continue).
  - intros front msg t E. destruct front; discriminate E.
  - vm_compute. reflexivity.
Defined.

Lemma log_output_only_grows_witness :
  exists added,
    log_output (recorder (landed first_session)) =
    log_output (recorder at_start) ++ added.
Proof.
  apply (log_output_only_grows None at_start (landed first_session) plugged
           recital (emitted first_session) Continue).
  vm_compute. reflexivity.
Defined.

Lemma saved_file_has_logged_notes_witness :
  track_note_starts (build_track (buffer take12)) = 12.
Proof.
  apply (saved_file_has_logged_notes take12 false
           (build_track (buffer take12))).
  - vm_compute. reflexivity.
  - vm_compute. reflexivity.
Defined.

Lemma written_files_hold_notes_witness :
  Forall good_file (emitted first_session).
Proof.
  apply (written_files_hold_notes None at_start (landed first_session)
           plugged recital (emitted first_session) Continue).
  - reflexivity.
  - reflexivity.
  - vm_compute. reflexivity.
Defined.

Lemma realtime_messages_are_dropped_witness :
  drain (session 2) 1 clock_only = (session 2, 1, []).
Proof.
  apply (realtime_messages_are_dropped clock_only (session 2) 1).
  reflexivity.
Defined.

Lemma inner_loop_closes_port_on_exit_witness :
  port (fst (fst (inner_loop listening [first_tick; failing_tick]))) = None.
Proof.
  apply (inner_loop_closes_port_on_exit [first_tick; failing_tick] listening
           (fst (fst (inner_loop listening [first_tick; failing_tick])))
           piano
           (snd (fst (inner_loop listening [first_tick; failing_tick])))
           Break).
  - reflexivity.
  - vm_compute. reflexivity.
Defined.

Lemma idle_timeout_saves_unforced_witness :
  snd (fst (inner_iteration (landed playing) (silent_tick 400%Q))) =
    [MidSave (build_track (buffer (recorder (landed playing))))].
Proof.
  apply (proj2 (proj2 (idle_timeout_saves_unforced (landed playing)
                         (silent_tick 400%Q) eq_refl eq_refl eq_refl))).
  - intros E. vm_compute in E. discriminate E.
  - vm_compute. reflexivity.
Defined.

Lemma wait_returns_first_device_witness :
  wait_for_midi_connection None fresh ([[]; []] ++ [organ; piano] :: []) =
    Some (log (log fresh LWaitingForDevice) (LDeviceFound organ), organ,
          [SleepReconnect; SleepReconnect]).
Proof.
  assert (Hfruitless :
            Forall (fun inputs => truthy (find_midi_input None inputs) = false)
                   [[]; []])
    by (repeat constructor).
  apply (proj2 (wait_returns_first_device None fresh [[]; []] Hfruitless)).
  - reflexivity.
  - discriminate.
Defined.

Lemma open_midi_input_selects_enumerated_name_witness :
  exists name inputs,
    name <> EmptyString /\
    In inputs (inputs_now late_arrival :: inputs_later late_arrival) /\
    In name inputs /\
    (forall preferred,
       @None string = Some preferred -> preferred <> EmptyString ->
       name = preferred) /\
    connected_port_name (fst (fst opened_late)) = Some name /\
    snd (fst opened_late) =
      (if open_succeeds late_arrival then Returned _ name else Raised _) /\
    buffer (fst (fst opened_late)) = buffer fresh /\
    note_on_count (fst (fst opened_late)) = note_on_count fresh /\
    Forall (fun e => e = SleepReconnect) (snd opened_late).
Proof.
  apply (open_midi_input_selects_enumerated_name None fresh
           (fst (fst opened_late)) late_arrival (snd (fst opened_late))
           (snd opened_late)).
  vm_compute. reflexivity.
Defined.

Lemma failed_open_keeps_session_witness :
  emitted (outer_iteration None at_start refused []) = [SleepReconnect] /\
  exists fruitless inputs later,
    inputs_later refused_late = fruitless ++ inputs :: later /\
    Forall (fun i => truthy (find_midi_input None i) = false) fruitless /\
    truthy (find_midi_input None inputs) = true /\
    emitted (outer_iteration None at_start refused_late []) =
      repeat SleepReconnect (List.length fruitless) ++ [SleepReconnect].
Proof.
  split.
  - apply (failed_open_keeps_session None at_start
             (landed (outer_iteration None at_start refused [])) refused []
             (emitted (outer_iteration None at_start refused [])) Break).
    + reflexivity.
    + reflexivity.
    + vm_compute. reflexivity.
    + reflexivity.
  - apply (failed_open_keeps_session None at_start
             (landed (outer_iteration None at_start refused_late []))
             refused_late []
             (emitted (outer_iteration None at_start refused_late [])) Break).
    + reflexivity.
    + reflexivity.
    + vm_compute. reflexivity.
    + reflexivity.
Defined.

(** The refused open after two empty enumerations: three pauses in all. *)
Example refused_late_pauses_three_times :
  emitted (outer_iteration None at_start refused_late []) =
    [SleepReconnect; SleepReconnect; SleepReconnect].
Proof. reflexivity. Qed.

Lemma two_iterations_as_one_witness :
  inner_loop listening [first_tick; second_tick] =
  inner_loop listening
    [mkTick (available_ports second_tick)
            (pending first_tick ++ pending second_tick)
            (pending_raises second_tick) (now_at_check second_tick)].
Proof.
  apply (two_iterations_as_one listening first_tick second_tick).
  - reflexivity.
  - reflexivity.
  - reflexivity.
  - right. vm_compute. reflexivity.
Defined.

Lemma at_most_one_log_window_witness :
  (List.length (windows (tk_run desktop clicks)) <= 1)%nat.
Proof.
  apply (at_most_one_log_window clicks desktop); reflexivity.
Defined.
